(** * Learnoverse Player: the [/videos] aggregation endpoint and the client loop

    A shallow embedding of the two source files of the repository:

    - the Express server (module [Server]): the handler of [GET /videos],
      which reads the tracked ids from the [videos] collection, asks the
      YouTube Data API about them in one request and reshapes the answer;
    - the React Native client (module [Client]): the state of the [App]
      component, its handlers ([fetchVideos], [onRefresh], [closePlayer],
      [onPlayerStateChange], [onPlayerError]) and the branch structure of
      its render function.

    The handler's effects (the outbound request, [console.error], thrown
    exceptions and [try]/[catch]) are threaded through a small state and
    exception monad; the component is a transition system over its hooks. *)

From Stdlib Require Import List String Ascii Bool ZArith Lia.
Import ListNotations.
Open Scope string_scope.

(* ================================================================== *)
(** * The server *)
(* ================================================================== *)

Module Server.

(** ** JavaScript values *)

(** A parsed JSON value.  [undefined] is not a JSON value: a property read
    that finds nothing yields [None] in [option json]. *)
#[local] Set Warnings "-register-all".
Inductive json : Type :=
| JNull
| JBool (b : bool)
| JNum (n : Z)
| JStr (s : string)
| JArr (elems : list json)
| JObj (fields : list (string * json)).

(** A JavaScript value as the handler sees it: [None] is [undefined]. *)
Definition jsval : Type := option json.

(** What a [throw] carries.  The payload of a store or HTTP client error
    is text of the driver's or of axios's own making (an axios error
    prints the request URL, and with it the API key). *)
Inductive js_error : Type :=
| TypeError (msg : string)
| MongoError (detail : string)
| AxiosError (detail : string).

(** The own properties of an object, each name once. *)
Fixpoint assoc (k : string) (fields : list (string * json)) : jsval :=
  match fields with
  | [] => None
  | (k', v) :: rest => if String.eqb k k' then Some v else assoc k rest
  end.

(** [v.k] for the property names the handler reads ([items], [id],
    [snippet], [title], [channelTitle], [thumbnails], [high], [url],
    [contentDetails], [duration]): none of them is inherited from a
    prototype, so on a string, number, boolean or array the read finds
    nothing; on [undefined] and [null] it throws. *)
Definition get_prop (v : jsval) (k : string) : js_error + jsval :=
  match v with
  | None =>
      inl (TypeError ("Cannot read properties of undefined (reading '" ++ k ++ "')"))
  | Some JNull =>
      inl (TypeError ("Cannot read properties of null (reading '" ++ k ++ "')"))
  | Some (JObj fields) => inr (assoc k fields)
  | Some _ => inr None
  end.

(** ** The request's world and the monad of the handler *)

Record Response : Type := mkResponse {
  status : Z;
  body : json
}.

(** [outbound]: the URLs handed to [axios.get], oldest first.
    [console]: the [console.error] lines, oldest first. *)
Record World : Type := mkWorld {
  outbound : list string;
  console : list (string * js_error)
}.

Definition M (A : Type) : Type := World -> (js_error + A) * World.

Definition ret {A} (a : A) : M A := fun w => (inr a, w).

Definition throw {A} (e : js_error) : M A := fun w => (inl e, w).

Definition bind {A B} (m : M A) (k : A -> M B) : M B :=
  fun w =>
    match m w with
    | (inl e, w') => (inl e, w')
    | (inr a, w') => k a w'
    end.

Definition try_catch {A} (m : M A) (handler : js_error -> M A) : M A :=
  fun w =>
    match m w with
    | (inl e, w') => handler e w'
    | (inr a, w') => (inr a, w')
    end.

(** An expression that either throws or has a value. *)
Definition lift {A} (r : js_error + A) : M A :=
  match r with
  | inl e => throw e
  | inr a => ret a
  end.

Declare Scope js_scope.
Delimit Scope js_scope with js.
Notation "x <- m ;; k" := (bind m (fun x => k))
  (at level 61, m at next level, right associativity) : js_scope.
Notation "m ;;; k" := (bind m (fun _ => k))
  (at level 61, right associativity) : js_scope.

(** ** The collaborators *)

(** A document of the [videos] collection, as far as the handler reads
    it: [doc.videoId], [None] when the document has no such field. *)
Record Doc : Type := mkDoc {
  doc_videoId : option string
}.

(** The document store: [find({}).toArray()] on a collection either
    rejects or resolves to the documents. *)
Definition Database : Type := string -> js_error + list Doc.

(** The process's environment: [db] stays [undefined] ([None]) until
    [MongoClient.connect] has resolved, and for good when it rejected;
    [youtubeApiKey] is [process.env.YOUTUBE_API_KEY]; [youtube] answers a
    request URL with the parsed body of a 2xx response or makes
    [axios.get] reject. *)
Record Env : Type := mkEnv {
  db : option Database;
  youtubeApiKey : option string;
  youtube : string -> js_error + json
}.

Definition db_collection (d : option Database) (name : string)
  : M (js_error + list Doc) :=
  match d with
  | None =>
      throw (TypeError "Cannot read properties of undefined (reading 'collection')")
  | Some database => ret (database name)
  end.

Definition find_toArray (collection : js_error + list Doc) : M (list Doc) :=
  lift collection.

Definition axios_get (env : Env) (url : string) : M json :=
  fun w =>
    let w' := {| outbound := outbound w ++ [url]; console := console w |} in
    match youtube env url with
    | inl e => (inl e, w')
    | inr data => (inr data, w')
    end.

Definition console_error (label : string) (e : js_error) : M unit :=
  fun w =>
    (inr tt, {| outbound := outbound w; console := console w ++ [(label, e)] |}).

(** ** The handler, step by step *)

(** [Array.prototype.join] renders [undefined] as the empty string. *)
Definition join_elem (v : option string) : string :=
  match v with
  | None => ""
  | Some s => s
  end.

(** [videoDocs.map(doc => doc.videoId).join(',')] *)
Definition videoIds (videoDocs : list Doc) : string :=
  String.concat "," (map join_elem (map doc_videoId videoDocs)).

(** A template literal renders [undefined] as the word. *)
Definition template (v : option string) : string :=
  match v with
  | None => "undefined"
  | Some s => s
  end.

Definition youtubeApiUrl (ids : string) (key : option string) : string :=
  "https://www.googleapis.com/youtube/v3/videos?part=snippet,contentDetails&id="
    ++ ids ++ "&key=" ++ template key.

(** The object literal of step 3, before it is serialised: the five
    properties in the order they are written. *)
Record Enriched : Type := mkEnriched {
  videoId : jsval;
  title : jsval;
  channelTitle : jsval;
  thumbnail : jsval;
  duration : jsval
}.

Definition bindE {A B} (r : js_error + A) (k : A -> js_error + B) : js_error + B :=
  match r with
  | inl e => inl e
  | inr a => k a
  end.

(** The callback of [youtubeItems.map]; the property reads happen left to
    right, top to bottom, and the first one that throws ends the map. *)
Definition format_item (item : json) : js_error + Enriched :=
  bindE (get_prop (Some item) "id") (fun id =>
  bindE (get_prop (Some item) "snippet") (fun snippet1 =>
  bindE (get_prop snippet1 "title") (fun title =>
  bindE (get_prop (Some item) "snippet") (fun snippet2 =>
  bindE (get_prop snippet2 "channelTitle") (fun channel =>
  bindE (get_prop (Some item) "snippet") (fun snippet3 =>
  bindE (get_prop snippet3 "thumbnails") (fun thumbnails =>
  bindE (get_prop thumbnails "high") (fun high =>
  bindE (get_prop high "url") (fun url =>
  bindE (get_prop (Some item) "contentDetails") (fun contentDetails =>
  bindE (get_prop contentDetails "duration") (fun dur =>
  inr {| videoId := id; title := title; channelTitle := channel;
         thumbnail := url; duration := dur |}))))))))))).

Fixpoint map_items (items : list json) : js_error + list Enriched :=
  match items with
  | [] => inr []
  | item :: rest =>
      bindE (format_item item) (fun r =>
      bindE (map_items rest) (fun rs => inr (r :: rs)))
  end.

(** [youtubeItems.map(...)]: only an array has a [map] to call. *)
Definition array_map (youtubeItems : jsval) : js_error + list Enriched :=
  match youtubeItems with
  | None =>
      inl (TypeError "Cannot read properties of undefined (reading 'map')")
  | Some JNull =>
      inl (TypeError "Cannot read properties of null (reading 'map')")
  | Some (JArr items) => map_items items
  | Some _ => inl (TypeError "youtubeItems.map is not a function")
  end.

(** [JSON.stringify] leaves out a property whose value is [undefined]. *)
Definition field (k : string) (v : jsval) : list (string * json) :=
  match v with
  | None => []
  | Some j => [(k, j)]
  end.

Definition enriched_to_json (r : Enriched) : json :=
  JObj (field "videoId" (videoId r) ++ field "title" (title r)
        ++ field "channelTitle" (channelTitle r)
        ++ field "thumbnail" (thumbnail r) ++ field "duration" (duration r)).

(** [res.json(enrichedVideos)]: status 200 unless set otherwise. *)
Definition res_json (enrichedVideos : list Enriched) : Response :=
  {| status := 200; body := JArr (map enriched_to_json enrichedVideos) |}.

(** [res.status(500).json({ message: 'Failed to fetch videos' })] *)
Definition res_failed : Response :=
  {| status := 500; body := JObj [("message", JStr "Failed to fetch videos")] |}.

Section Handler.
Local Open Scope js_scope.

(** [app.get('/videos', async (req, res) => { ... })] *)
Definition get_videos (env : Env) : M Response :=
  try_catch
    (videosCollection <- db_collection (db env) "videos" ;;
     videoDocs <- find_toArray videosCollection ;;
     let ids := videoIds videoDocs in
     let url := youtubeApiUrl ids (youtubeApiKey env) in
     data <- axios_get env url ;;
     youtubeItems <- lift (get_prop (Some data) "items") ;;
     enrichedVideos <- lift (array_map youtubeItems) ;;
     ret (res_json enrichedVideos))
    (fun error =>
       console_error "Error fetching videos:" error ;;;
       ret res_failed).

End Handler.

(** A request starts with nothing sent and nothing logged. *)
Definition fresh : World := {| outbound := []; console := [] |}.

Definition response_of (r : (js_error + Response) * World) : option Response :=
  match fst r with
  | inl _ => None
  | inr resp => Some resp
  end.

Definition world_of (r : (js_error + Response) * World) : World := snd r.

(** ** Readings of the handler's steps used to state its properties *)

(** Step 1 on its own: what the catalog read gives the handler. *)
Definition read_catalog (env : Env) : js_error + list Doc :=
  match db env with
  | None =>
      inl (TypeError "Cannot read properties of undefined (reading 'collection')")
  | Some database => database "videos"
  end.

(** The ids the request asks the API about, one per catalog document. *)
Definition requested_ids (videoDocs : list Doc) : list (option string) :=
  map doc_videoId videoDocs.

(** The URL the handler builds for a catalog. *)
Definition request_url (env : Env) (videoDocs : list Doc) : string :=
  youtubeApiUrl (videoIds videoDocs) (youtubeApiKey env).

(** [e.k] of a value of the response body, [undefined] when absent. *)
Definition prop_of (e : json) (k : string) : jsval :=
  match get_prop (Some e) k with
  | inl _ => None
  | inr v => v
  end.

Definition is_str (j : json) : bool :=
  match j with
  | JStr _ => true
  | _ => false
  end.

Definition mem (k : string) (ks : list string) : bool :=
  existsb (String.eqb k) ks.

(** [has_shape ks j]: [j] is an object whose property names are exactly
    [ks] (in any order) and whose values are all strings. *)
Definition has_shape (ks : list string) (j : json) : bool :=
  match j with
  | JObj fields =>
      Nat.eqb (List.length fields) (List.length ks)
      && forallb (fun k => mem k (map fst fields)) ks
      && forallb (fun k => mem k ks) (map fst fields)
      && forallb is_str (map snd fields)
  | _ => false
  end.

(** The shape the client's [Video] type names, and the shape of the object
    literal of step 3. *)
Definition video_keys : list string :=
  ["videoId"; "title"; "channelTitle"; "thumbnail"].

Definition enriched_keys : list string :=
  ["videoId"; "title"; "channelTitle"; "thumbnail"; "duration"].

(** An item of the API's answer that carries every field the handler
    reads, each a string. *)
Definition youtube_item (id ttl channel url dur : string) : json :=
  JObj [("id", JStr id);
        ("snippet", JObj [("title", JStr ttl);
                          ("channelTitle", JStr channel);
                          ("thumbnails", JObj [("high", JObj [("url", JStr url)])])]);
        ("contentDetails", JObj [("duration", JStr dur)])].

(** An item, of whatever other content, in which every property the
    callback reads is there and is a string. *)
Definition carries_strings (item : json) : Prop :=
  exists id ttl channel url dur,
    format_item item =
    inr {| videoId := Some (JStr id); title := Some (JStr ttl);
           channelTitle := Some (JStr channel); thumbnail := Some (JStr url);
           duration := Some (JStr dur) |}.

Definition ceil_div (n m : nat) : nat := (n + m - 1) / m.

(** The world after the [catch] block has logged [e], and after a request
    for [url] has gone out. *)
Definition logged (w : World) (e : js_error) : World :=
  {| outbound := outbound w;
     console := console w ++ [("Error fetching videos:", e)] |}.

Definition sent (w : World) (url : string) : World :=
  {| outbound := outbound w ++ [url]; console := console w |}.

(** [selection ks all]: [ks] picks some of [all], keeping their order. *)
Fixpoint selection (ks all : list string) : bool :=
  match ks, all with
  | [], _ => true
  | _ :: _, [] => false
  | k :: ks', a :: all' =>
      if String.eqb k a then selection ks' all' else selection ks all'
  end.

(** The property names of a value of the response body. *)
Definition served_keys (e : json) : option (list string) :=
  match e with
  | JObj fields => Some (map fst fields)
  | _ => None
  end.

(** ** Concrete environments *)

Definition item_v1 : json :=
  youtube_item "v1" "Intro to Rocq" "Learnoverse" "https://i.ytimg.com/vi/v1/hqdefault.jpg" "PT4M13S".

Definition item_zz : json :=
  youtube_item "zz" "Something else" "Elsewhere" "https://i.ytimg.com/vi/zz/hqdefault.jpg" "PT1M".

(** What the callback makes of [item_v1]. *)
Definition record_v1 : Enriched :=
  {| videoId := Some (JStr "v1");
     title := Some (JStr "Intro to Rocq");
     channelTitle := Some (JStr "Learnoverse");
     thumbnail := Some (JStr "https://i.ytimg.com/vi/v1/hqdefault.jpg");
     duration := Some (JStr "PT4M13S") |}.

Definition answer (items : list json) : json :=
  JObj [("kind", JStr "youtube#videoListResponse"); ("items", JArr items)].

(** An empty catalog; the API answers with no items. *)
Definition env_empty : Env :=
  {| db := Some (fun _ => inr []);
     youtubeApiKey := Some "KEY";
     youtube := fun _ => inr (answer []) |}.

(** Catalog [v1, v2]; the API resolves only [v1]. *)
Definition env_v1_v2 : Env :=
  {| db := Some (fun _ => inr [mkDoc (Some "v1"); mkDoc (Some "v2")]);
     youtubeApiKey := Some "KEY";
     youtube := fun _ => inr (answer [item_v1]) |}.

(** Catalog [v1]; the API answers with an item of another id. *)
Definition env_foreign : Env :=
  {| db := Some (fun _ => inr [mkDoc (Some "v1")]);
     youtubeApiKey := Some "KEY";
     youtube := fun _ => inr (answer [item_zz]) |}.

(** The connection was never established. *)
Definition env_no_db : Env :=
  {| db := None;
     youtubeApiKey := Some "KEY";
     youtube := fun _ => inr (answer [item_v1]) |}.

(** The query rejects. *)
Definition env_query_fails : Env :=
  {| db := Some (fun _ => inl (MongoError "connection pool closed"));
     youtubeApiKey := Some "KEY";
     youtube := fun _ => inr (answer [item_v1]) |}.

(** The API call rejects; the error text carries the URL and the key. *)
Definition env_upstream_fails : Env :=
  {| db := Some (fun _ => inr [mkDoc (Some "v1")]);
     youtubeApiKey := Some "KEY";
     youtube := fun url => inl (AxiosError ("Request failed with status code 403: " ++ url)) |}.

(** A catalog of [n] documents with ids [id0], [id00], [id000], ... *)
Definition big_catalog (n : nat) : list Doc :=
  map (fun i => mkDoc (Some ("id" ++ String.concat "" (repeat "0" (S i))))) (seq 0 n).

Definition env_big (n : nat) : Env :=
  {| db := Some (fun _ => inr (big_catalog n));
     youtubeApiKey := Some "KEY";
     youtube := fun _ => inr (answer []) |}.

(** ** Reading an item *)

(** [undefined] or [null]: what a property read throws on. *)
Definition nullish (v : jsval) : bool :=
  match v with
  | None | Some JNull => true
  | Some _ => false
  end.

(** [v.k1.k2...], [undefined] once there is nothing left to read from. *)
Fixpoint path (v : jsval) (ks : list string) : jsval :=
  match ks with
  | [] => v
  | k :: rest =>
      match v with
      | None => None
      | Some j => path (prop_of j k) rest
      end
  end.

(** The objects the callback reads through are all there: the item
    itself, its [snippet], the snippet's [thumbnails], their [high], and
    the item's [contentDetails]. *)
Definition readable (item : json) : bool :=
  negb (nullish (Some item))
  && negb (nullish (path (Some item) ["snippet"]))
  && negb (nullish (path (Some item) ["snippet"; "thumbnails"]))
  && negb (nullish (path (Some item) ["snippet"; "thumbnails"; "high"]))
  && negb (nullish (path (Some item) ["contentDetails"])).

Definition is_array (v : jsval) : bool :=
  match v with
  | Some (JArr _) => true
  | _ => false
  end.

Definition is_TypeError (e : js_error) : bool :=
  match e with
  | TypeError _ => true
  | _ => false
  end.

(** ** The process *)

(** A connected [MongoClient]: [client.db(name)]. *)
Definition MongoClient : Type := string -> Database.

(** The server process: the module-level [db], whether
    [MongoClient.connect] is still to settle, what [console.log] has
    printed, the world the handlers write to, and the responses given so
    far, oldest first. *)
Record Process : Type := mkProcess {
  proc_db : option Database;
  connecting : bool;
  stdout : list string;
  world : World;
  responses : list Response
}.

(** The module has run: [let db;] and the pending [connect]. *)
Definition boot : Process :=
  {| proc_db := None; connecting := true; stdout := []; world := fresh;
     responses := [] |}.

Inductive ServerEvent : Type :=
| Connected (client : MongoClient)
| ConnectFailed (error : js_error)
| Request.

(** The [then] callback of [MongoClient.connect]. *)
Definition on_connected (client : MongoClient) (p : Process) : Process :=
  {| proc_db := Some (client "learnoverse");
     connecting := false;
     stdout := stdout p ++ ["Connected to MongoDB"];
     world := world p;
     responses := responses p |}.

(** Its [catch] callback: the process logs and goes on. *)
Definition on_connect_failed (error : js_error) (p : Process) : Process :=
  {| proc_db := proc_db p;
     connecting := false;
     stdout := stdout p;
     world := {| outbound := outbound (world p);
                 console := console (world p)
                            ++ [("Failed to connect to MongoDB", error)] |};
     responses := responses p |}.

(** One [GET /videos], served with the [db] of the moment. *)
Definition on_request (key : option string) (api : string -> js_error + json)
    (p : Process) : Process :=
  let env := {| db := proc_db p; youtubeApiKey := key; youtube := api |} in
  let r := get_videos env (world p) in
  {| proc_db := proc_db p;
     connecting := connecting p;
     stdout := stdout p;
     world := world_of r;
     responses := responses p ++ match response_of r with
                                 | Some resp => [resp]
                                 | None => []
                                 end |}.

(** The connection settles once; requests come at any time. *)
Definition can_happen (p : Process) (ev : ServerEvent) : bool :=
  match ev with
  | Connected _ => connecting p
  | ConnectFailed _ => connecting p
  | Request => true
  end.

Definition serve_event (key : option string) (api : string -> js_error + json)
    (ev : ServerEvent) (p : Process) : Process :=
  match ev with
  | Connected client => on_connected client p
  | ConnectFailed error => on_connect_failed error p
  | Request => on_request key api p
  end.

Fixpoint serve (key : option string) (api : string -> js_error + json)
    (p : Process) (trace : list ServerEvent) : option Process :=
  match trace with
  | [] => Some p
  | ev :: rest =>
      if can_happen p ev then serve key api (serve_event key api ev p) rest
      else None
  end.

Definition is_connected (ev : ServerEvent) : bool :=
  match ev with
  | Connected _ => true
  | _ => false
  end.

Definition is_request (ev : ServerEvent) : bool :=
  match ev with
  | Request => true
  | _ => false
  end.

(** A client whose [learnoverse.videos] holds [v1] and [v2]. *)
Definition client_v1_v2 : MongoClient :=
  fun _ _ => inr [mkDoc (Some "v1"); mkDoc (Some "v2")].

(** An item whose snippet has no [title] and no [thumbnails.high]. *)
Definition item_no_high : json :=
  JObj [("id", JStr "v2");
        ("snippet", JObj [("channelTitle", JStr "Learnoverse");
                          ("thumbnails", JObj [("default", JObj [("url", JStr "u")])])]);
        ("contentDetails", JObj [("duration", JStr "PT2M")])].

(** An item that lacks only the leaves [id] and [title]. *)
Definition item_no_title : json :=
  JObj [("snippet", JObj [("channelTitle", JStr "Learnoverse");
                          ("thumbnails", JObj [("high", JObj [("url", JStr "u")])])]);
        ("contentDetails", JObj [("duration", JStr "PT2M")])].

(** Catalog [v1, v2]; the API answers with [v1] and an item without
    [thumbnails.high]. *)
Definition env_bad_item : Env :=
  {| db := Some (fun _ => inr [mkDoc (Some "v1"); mkDoc (Some "v2")]);
     youtubeApiKey := Some "KEY";
     youtube := fun _ => inr (answer [item_v1; item_no_high]) |}.

(** Catalog [v1]; the API answers with an error document, no [items]. *)
Definition env_no_items : Env :=
  {| db := Some (fun _ => inr [mkDoc (Some "v1")]);
     youtubeApiKey := Some "KEY";
     youtube := fun _ => inr (JObj [("error", JObj [("code", JNum 400)])]) |}.

(** Catalog [v1]; the API answers with an item without [id] and [title]. *)
Definition env_no_title : Env :=
  {| db := Some (fun _ => inr [mkDoc (Some "v1")]);
     youtubeApiKey := Some "KEY";
     youtube := fun _ => inr (answer [item_no_title]) |}.

End Server.

(* ================================================================== *)
(** * The client *)
(* ================================================================== *)

Module Client.

Record Video : Type := mkVideo {
  videoId : string;
  title : string;
  channelTitle : string;
  thumbnail : string
}.

(** ** The hooks of [App] *)

Record State : Type := mkState {
  isSplashVisible : bool;
  videos : list Video;
  selectedVideo : option Video;
  isLoading : bool;
  error : option string;
  infoModalVisible : bool;
  refreshing : bool
}.

(** The [useState] initial values. *)
Definition initial : State :=
  {| isSplashVisible := true;
     videos := [];
     selectedVideo := None;
     isLoading := true;
     error := None;
     infoModalVisible := false;
     refreshing := false |}.

Definition setIsSplashVisible (b : bool) (s : State) : State :=
  {| isSplashVisible := b; videos := videos s; selectedVideo := selectedVideo s;
     isLoading := isLoading s; error := error s;
     infoModalVisible := infoModalVisible s; refreshing := refreshing s |}.

Definition setVideos (data : list Video) (s : State) : State :=
  {| isSplashVisible := isSplashVisible s; videos := data;
     selectedVideo := selectedVideo s; isLoading := isLoading s; error := error s;
     infoModalVisible := infoModalVisible s; refreshing := refreshing s |}.

Definition setSelectedVideo (v : option Video) (s : State) : State :=
  {| isSplashVisible := isSplashVisible s; videos := videos s; selectedVideo := v;
     isLoading := isLoading s; error := error s;
     infoModalVisible := infoModalVisible s; refreshing := refreshing s |}.

Definition setIsLoading (b : bool) (s : State) : State :=
  {| isSplashVisible := isSplashVisible s; videos := videos s;
     selectedVideo := selectedVideo s; isLoading := b; error := error s;
     infoModalVisible := infoModalVisible s; refreshing := refreshing s |}.

Definition setError (e : option string) (s : State) : State :=
  {| isSplashVisible := isSplashVisible s; videos := videos s;
     selectedVideo := selectedVideo s; isLoading := isLoading s; error := e;
     infoModalVisible := infoModalVisible s; refreshing := refreshing s |}.

Definition setInfoModalVisible (b : bool) (s : State) : State :=
  {| isSplashVisible := isSplashVisible s; videos := videos s;
     selectedVideo := selectedVideo s; isLoading := isLoading s; error := error s;
     infoModalVisible := b; refreshing := refreshing s |}.

Definition setRefreshing (b : bool) (s : State) : State :=
  {| isSplashVisible := isSplashVisible s; videos := videos s;
     selectedVideo := selectedVideo s; isLoading := isLoading s; error := error s;
     infoModalVisible := infoModalVisible s; refreshing := b |}.

(** ** The component and what it does to the outside *)

Inductive Effect : Type :=
| Fetch (url : string)
| ConsoleError (line : string)
| Alert (heading message : string).

(** The mounted component: its hooks, the effects it has caused (oldest
    first), the number of [fetchVideos] calls not settled yet, whether the
    splash timer is still to fire, and [Platform.OS]. *)
Record App : Type := mkApp {
  hooks : State;
  effects : list Effect;
  in_flight : nat;
  splash_timer : bool;
  platform : string
}.

Definition update (f : State -> State) (a : App) : App :=
  {| hooks := f (hooks a); effects := effects a; in_flight := in_flight a;
     splash_timer := splash_timer a; platform := platform a |}.

Definition emit (e : Effect) (a : App) : App :=
  {| hooks := hooks a; effects := effects a ++ [e]; in_flight := in_flight a;
     splash_timer := splash_timer a; platform := platform a |}.

(** ** [fetchVideos] *)

(** How one [fetchVideos] call can go: [fetch(apiUrl)] rejects, or it
    resolves to a response with its [ok] flag, whose [json()] in turn
    rejects or resolves to the data. *)
Inductive FetchResult : Type :=
| Rejected (reason : string)
| Responded (ok : bool) (json : string + list Video).

(** The [try] block: the data it reaches [setVideos] with, or what it
    throws. *)
Definition fetch_try (r : FetchResult) : string + list Video :=
  match r with
  | Rejected reason => inl reason
  | Responded false _ => inl "Network response was not ok"
  | Responded true (inl reason) => inl reason
  | Responded true (inr data) => inr data
  end.

Definition apiUrl (os : string) : string :=
  if String.eqb os "android" then "http://10.0.2.2:3000/videos"
  else "http://localhost:3000/videos".

(** The call up to its first [await]: the request goes out. *)
Definition fetchVideos_start (a : App) : App :=
  let a' := emit (Fetch (apiUrl (platform a))) a in
  {| hooks := hooks a'; effects := effects a'; in_flight := S (in_flight a');
     splash_timer := splash_timer a'; platform := platform a' |}.

(** The rest of the call, once the request has settled: [try] or [catch],
    then [finally]. *)
Definition fetchVideos_settle (r : FetchResult) (a : App) : App :=
  let a1 :=
    match fetch_try r with
    | inr data => update (setError None) (update (setVideos data) a)
    | inl e =>
        emit (ConsoleError e)
          (update (setError (Some "Failed to fetch videos. Pull down to retry.")) a)
    end in
  let a2 := update (setRefreshing false) (update (setIsLoading false) a1) in
  {| hooks := hooks a2; effects := effects a2; in_flight := pred (in_flight a2);
     splash_timer := splash_timer a2; platform := platform a2 |}.

(** ** Handlers *)

(** The mount effect: [fetchVideos()] and the three-second splash timer. *)
Definition mount (os : string) : App :=
  let a := fetchVideos_start
             {| hooks := initial; effects := []; in_flight := 0;
                splash_timer := false; platform := os |} in
  {| hooks := hooks a; effects := effects a; in_flight := in_flight a;
     splash_timer := true; platform := platform a |}.

Definition splash_timeout (a : App) : App :=
  let a' := update (setIsSplashVisible false) a in
  {| hooks := hooks a'; effects := effects a'; in_flight := in_flight a';
     splash_timer := false; platform := platform a' |}.

Definition onRefresh (a : App) : App :=
  fetchVideos_start (update (setRefreshing true) a).

Definition closePlayer (a : App) : App :=
  update (setSelectedVideo None) a.

Definition onPlayerStateChange (state : string) (a : App) : App :=
  if String.eqb state "ended" then closePlayer a else a.

Definition playback_alert : Effect :=
  Alert "Playback Error"
        "This video cannot be played. It may be restricted by the owner.".

(** [console.error], then [Alert.alert], then [closePlayer]. *)
Definition onPlayerError (err : string) (a : App) : App :=
  closePlayer
    (emit playback_alert
       (emit (ConsoleError ("YouTube Player Error: " ++ err)) a)).

(** ** Render *)

(** An empty string is falsy. *)
Definition truthy (e : option string) : bool :=
  match e with
  | None => false
  | Some msg => negb (String.eqb msg "")
  end.

Inductive Content : Type :=
| Skeleton (placeholders : nat)
| ErrorText (msg : option string)
| VideoList (data : list Video) (refresh_indicator : bool).

(** The content area: the ternary chain of the main render. *)
Definition content (s : State) : Content :=
  if isLoading s then Skeleton 5
  else if truthy (error s) && Nat.eqb (List.length (videos s)) 0
       then ErrorText (error s)
       else VideoList (videos s) (refreshing s).

(** The screen: the splash alone, or the content area with the player
    modal (present when a video is selected) and the info modal's
    visibility. *)
Inductive Screen : Type :=
| Splash
| Main (area : Content) (player : option Video) (info : bool).

Definition render (s : State) : Screen :=
  if isSplashVisible s then Splash
  else Main (content s) (selectedVideo s) (infoModalVisible s).

Definition list_shown (s : State) : bool :=
  match render s with
  | Main (VideoList _ _) _ _ => true
  | _ => false
  end.

Definition player_shown (s : State) : bool :=
  match render s with
  | Main _ (Some _) _ => true
  | _ => false
  end.

Definition skeleton_shown (s : State) : bool :=
  match render s with
  | Main (Skeleton _) _ _ => true
  | _ => false
  end.

(** ** The component as a transition system *)

Inductive Event : Type :=
| SplashTimeout
| FetchSettled (r : FetchResult)
| PullRefresh
| TapVideo (index : nat)
| PlayerStateChange (state : string)
| PlayerError (err : string)
| ClosePressed
| InfoPressed
| InfoClosed.

(** An event can happen only where the render wires its handler: the
    refresh control and the items sit in the video list, the player and
    its close button in the player modal, the info button in the main
    screen; a fetch settles only if one is under way. *)
Definition enabled (a : App) (e : Event) : bool :=
  match e with
  | SplashTimeout => splash_timer a
  | FetchSettled _ => negb (Nat.eqb (in_flight a) 0)
  | PullRefresh => list_shown (hooks a)
  | TapVideo i =>
      list_shown (hooks a) && Nat.ltb i (List.length (videos (hooks a)))
  | PlayerStateChange _ => player_shown (hooks a)
  | PlayerError _ => player_shown (hooks a)
  | ClosePressed => player_shown (hooks a)
  | InfoPressed => negb (isSplashVisible (hooks a))
  | InfoClosed => negb (isSplashVisible (hooks a)) && infoModalVisible (hooks a)
  end.

Definition handle (e : Event) (a : App) : App :=
  match e with
  | SplashTimeout => splash_timeout a
  | FetchSettled r => fetchVideos_settle r a
  | PullRefresh => onRefresh a
  | TapVideo i => update (setSelectedVideo (nth_error (videos (hooks a)) i)) a
  | PlayerStateChange state => onPlayerStateChange state a
  | PlayerError err => onPlayerError err a
  | ClosePressed => closePlayer a
  | InfoPressed => update (setInfoModalVisible true) a
  | InfoClosed => update (setInfoModalVisible false) a
  end.

(** [run a trace]: the component after the events of [trace], oldest
    first; [None] when one of them could not happen. *)
Fixpoint run (a : App) (trace : list Event) : option App :=
  match trace with
  | [] => Some a
  | e :: rest => if enabled a e then run (handle e a) rest else None
  end.

Definition is_settle (e : Event) : bool :=
  match e with
  | FetchSettled _ => true
  | _ => false
  end.

Definition is_tap (e : Event) : bool :=
  match e with
  | TapVideo _ => true
  | _ => false
  end.

(** While the refresh flag is on, the video list is what is rendered. *)
Definition refresh_in_list (a : App) : Prop :=
  refreshing (hooks a) = true -> list_shown (hooks a) = true.

(** ** The loader's states, read off the hooks *)

(** The component keeps no state variable of this kind; the names are
    those of the loader's state machine, decided by the three hooks
    [isLoading], [refreshing] and [error]. *)
Inductive Phase : Type := Loading | Refreshing | Loaded | Failed.

Definition phase (s : State) : Phase :=
  if isLoading s then Loading
  else if refreshing s then Refreshing
  else match error s with
       | Some _ => Failed
       | None => Loaded
       end.

(** ** Concrete records *)

Definition video_A : Video :=
  {| videoId := "a1"; title := "Alpha"; channelTitle := "Learnoverse";
     thumbnail := "https://i.ytimg.com/vi/a1/hqdefault.jpg" |}.

Definition video_B : Video :=
  {| videoId := "b2"; title := "Beta"; channelTitle := "Learnoverse";
     thumbnail := "https://i.ytimg.com/vi/b2/hqdefault.jpg" |}.

(** The component once the first fetch has brought [[A, B]], once the
    splash is gone, and once the first item has been tapped. *)
Definition app_loaded : App :=
  fetchVideos_settle (Responded true (inr [video_A; video_B])) (mount "android").

Definition app_browsing : App := splash_timeout app_loaded.

Definition app_playing : App := handle (TapVideo 0) app_browsing.

(** ** Readings of a run *)

(** The string [fetchVideos] hands to [setError]. *)
Definition fetch_error_message : string :=
  "Failed to fetch videos. Pull down to retry.".

Definition is_pull (e : Event) : bool :=
  match e with
  | PullRefresh => true
  | _ => false
  end.

Definition is_splash (e : Event) : bool :=
  match e with
  | SplashTimeout => true
  | _ => false
  end.

(** A fetch settling with data for [setVideos]. *)
Definition is_success (e : Event) : bool :=
  match e with
  | FetchSettled r =>
      match fetch_try r with
      | inr _ => true
      | inl _ => false
      end
  | _ => false
  end.

(** The URLs of the requests among the effects, oldest first. *)
Fixpoint fetch_urls (effs : list Effect) : list string :=
  match effs with
  | [] => []
  | Fetch url :: rest => url :: fetch_urls rest
  | _ :: rest => fetch_urls rest
  end.

(** [v] came with a fetch that settles in [trace]. *)
Definition fetched (trace : list Event) (v : Video) : Prop :=
  exists r data,
    In (FetchSettled r) trace /\ fetch_try r = inr data /\ In v data.

(** The component once the first fetch has failed. *)
Definition app_failed : App :=
  fetchVideos_settle (Rejected "Network request failed") (mount "android").

End Client.

(* ================================================================== *)
(** * Properties of the server *)
(* ================================================================== *)

Module ServerFacts.
Import Server.

#[local] Arguments youtubeApiUrl : simpl never.
#[local] Arguments videoIds : simpl never.
#[local] Arguments get_prop : simpl never.
#[local] Arguments array_map : simpl never.

(** ** How a request runs *)

Lemma run_catalog_fails (env : Env) (w : World) (e : js_error) :
  read_catalog env = inl e ->
  get_videos env w = (inr res_failed, logged w e).
Proof.
  unfold read_catalog, get_videos, try_catch, bind, db_collection.
  destruct (db env) as [database|]; cbn.
  - intros H. rewrite H. reflexivity.
  - intros H. injection H as <-. reflexivity.
Qed.

Lemma run_upstream_fails (env : Env) (w : World) (docs : list Doc) (e : js_error) :
  read_catalog env = inr docs ->
  youtube env (request_url env docs) = inl e ->
  get_videos env w = (inr res_failed, logged (sent w (request_url env docs)) e).
Proof.
  unfold read_catalog, request_url, get_videos, try_catch, bind, db_collection,
    axios_get.
  destruct (db env) as [database|]; [|discriminate].
  intros H1 H2. cbn. rewrite H1. cbn. rewrite H2. reflexivity.
Qed.

Lemma run_answered (env : Env) (w : World) (docs : list Doc) (data : json) :
  read_catalog env = inr docs ->
  youtube env (request_url env docs) = inr data ->
  get_videos env w =
  match bindE (get_prop (Some data) "items") array_map with
  | inl e => (inr res_failed, logged (sent w (request_url env docs)) e)
  | inr rs => (inr (res_json rs), sent w (request_url env docs))
  end.
Proof.
  unfold read_catalog, request_url, get_videos, try_catch, bind, db_collection,
    axios_get.
  destruct (db env) as [database|]; [|discriminate].
  intros H1 H2. cbn. rewrite H1. cbn. rewrite H2.
  unfold lift, bindE.
  destruct (get_prop (Some data) "items") as [e|items]; [reflexivity|].
  unfold ret.
  destruct (array_map items) as [e|rs]; reflexivity.
Qed.

(** Every request is answered: the handler's [catch] cannot throw. *)
Lemma get_videos_responds (env : Env) (w : World) :
  exists resp, response_of (get_videos env w) = Some resp.
Proof.
  unfold response_of.
  destruct (read_catalog env) as [e|docs] eqn:Hc.
  - rewrite (run_catalog_fails _ _ _ Hc). cbn. eauto.
  - destruct (youtube env (request_url env docs)) as [e|data] eqn:Hy.
    + rewrite (run_upstream_fails _ _ _ _ Hc Hy). cbn. eauto.
    + rewrite (run_answered _ _ _ _ Hc Hy).
      destruct (bindE _ _); cbn; eauto.
Qed.

(** A 200 can only come from an answer of the API whose item list the
    callback went through to the end. *)
Lemma ok_response_inv (env : Env) (w : World) (resp : Response) :
  response_of (get_videos env w) = Some resp ->
  status resp = 200%Z ->
  exists docs data items rs,
    read_catalog env = inr docs
    /\ youtube env (request_url env docs) = inr data
    /\ get_prop (Some data) "items" = inr (Some (JArr items))
    /\ map_items items = inr rs
    /\ resp = res_json rs
    /\ world_of (get_videos env w) = sent w (request_url env docs).
Proof.
  unfold response_of, world_of.
  destruct (read_catalog env) as [e|docs] eqn:Hc.
  { rewrite (run_catalog_fails _ _ _ Hc). cbn. intros [= <-]. discriminate. }
  destruct (youtube env (request_url env docs)) as [e|data] eqn:Hy.
  { rewrite (run_upstream_fails _ _ _ _ Hc Hy). cbn. intros [= <-]. discriminate. }
  rewrite (run_answered _ _ _ _ Hc Hy).
  destruct (get_prop (Some data) "items") as [e|items] eqn:Hi; cbn.
  { intros [= <-]. discriminate. }
  destruct (array_map items) as [e|rs] eqn:Hm; cbn.
  { intros [= <-]. discriminate. }
  intros [= <-] _.
  exists docs, data.
  destruct items as [[| | | |elems|]|]; cbn in Hm; try discriminate.
  exists elems, rs. repeat split; assumption.
Qed.

(** ** The callback and the serialisation *)

Lemma map_items_Forall2 (items : list json) (rs : list Enriched) :
  map_items items = inr rs <->
  Forall2 (fun item r => format_item item = inr r) items rs.
Proof.
  split.
  - revert rs. induction items as [|item rest IH]; cbn; intros rs H.
    + injection H as <-. constructor.
    + destruct (format_item item) as [e|r] eqn:Hf; cbn in H; [discriminate|].
      destruct (map_items rest) as [e|rs'] eqn:Hr; cbn in H; [discriminate|].
      injection H as <-. constructor; auto.
  - induction 1 as [|item r items rs Hf _ IH]; cbn.
    + reflexivity.
    + rewrite Hf, IH. reflexivity.
Qed.

Lemma format_item_id (item : json) (r : Enriched) :
  format_item item = inr r ->
  get_prop (Some item) "id" = inr (videoId r).
Proof.
  unfold format_item, bindE. intros H.
  repeat match type of H with
         | match ?x with _ => _ end = _ => destruct x; try discriminate
         end.
  injection H as <-. reflexivity.
Qed.

Lemma prop_of_videoId (r : Enriched) :
  prop_of (enriched_to_json r) "videoId" = videoId r.
Proof.
  destruct r as [[i|] [t|] [c|] [u|] [d|]]; reflexivity.
Qed.

Lemma served_videoId (item : json) (r : Enriched) :
  format_item item = inr r ->
  prop_of (enriched_to_json r) "videoId" = prop_of item "id".
Proof.
  intros H. rewrite prop_of_videoId. unfold prop_of.
  rewrite (format_item_id _ _ H). reflexivity.
Qed.

Lemma map_items_videoIds (items : list json) (rs : list Enriched) :
  map_items items = inr rs ->
  Forall2 (fun item e => prop_of e "videoId" = prop_of item "id")
          items (map enriched_to_json rs).
Proof.
  intros Hm. apply map_items_Forall2 in Hm.
  induction Hm as [|item r items rs Hf _ IH]; cbn; constructor.
  - apply served_videoId, Hf.
  - exact IH.
Qed.

Lemma has_shape_strings (id ttl channel url dur : string) :
  has_shape enriched_keys
    (enriched_to_json
       {| videoId := Some (JStr id); title := Some (JStr ttl);
          channelTitle := Some (JStr channel); thumbnail := Some (JStr url);
          duration := Some (JStr dur) |}) = true.
Proof. reflexivity. Qed.

Lemma served_keys_selection (r : Enriched) :
  exists ks, served_keys (enriched_to_json r) = Some ks
             /\ selection ks enriched_keys = true.
Proof.
  destruct r as [[i|] [t|] [c|] [u|] [d|]]; cbn; eexists; split;
    reflexivity.
Qed.

(** One request goes out once the catalog has been read, whatever the
    API then answers. *)
Lemma one_request (env : Env) (w : World) (docs : list Doc) :
  read_catalog env = inr docs ->
  outbound (world_of (get_videos env w)) =
    (outbound w ++ [request_url env docs])%list.
Proof.
  intros Hc. unfold world_of.
  destruct (youtube env (request_url env docs)) as [e|data] eqn:Hy.
  - rewrite (run_upstream_fails _ _ _ _ Hc Hy). reflexivity.
  - rewrite (run_answered _ _ _ _ Hc Hy). destruct (bindE _ _); reflexivity.
Qed.

(** ** C1 *)

(** C1, as stated, fails: with an empty catalog the handler still sends
    its request, with an empty [id] parameter. *)
Lemma empty_catalog_request_goes_out :
  read_catalog env_empty = inr []
  /\ outbound (world_of (get_videos env_empty fresh)) =
     ["https://www.googleapis.com/youtube/v3/videos?part=snippet,contentDetails&id=&key=KEY"]
  /\ List.length (outbound (world_of (get_videos env_empty fresh))) <> 0.
Proof. repeat split. cbn. discriminate. Qed.

(** C1, amended: when the catalog holds no tracked id, the handler still
    issues exactly one outbound call, whose [id] parameter is empty, and
    the endpoint responds 200 with an empty array when that call is
    answered with an empty item list. *)
Theorem empty_catalog_one_call (env : Env) (w : World) :
  read_catalog env = inr [] ->
  outbound (world_of (get_videos env w)) =
    (outbound w ++ [youtubeApiUrl "" (youtubeApiKey env)])%list
  /\ (forall data,
        youtube env (youtubeApiUrl "" (youtubeApiKey env)) = inr data ->
        get_prop (Some data) "items" = inr (Some (JArr [])) ->
        response_of (get_videos env w) =
          Some {| status := 200; body := JArr [] |}).
Proof.
  intros Hc. split.
  - apply (one_request env w [] Hc).
  - intros data Hy Hi.
    change (youtubeApiUrl "" (youtubeApiKey env)) with (request_url env []) in Hy.
    rewrite (run_answered _ _ _ _ Hc Hy), Hi. reflexivity.
Qed.

Lemma empty_catalog_one_call_witness :
  outbound (world_of (get_videos env_empty fresh)) =
    ["https://www.googleapis.com/youtube/v3/videos?part=snippet,contentDetails&id=&key=KEY"]
  /\ response_of (get_videos env_empty fresh) =
       Some {| status := 200; body := JArr [] |}.
Proof.
  destruct (empty_catalog_one_call env_empty fresh eq_refl) as [Hout Hresp].
  split.
  - exact Hout.
  - apply (Hresp (answer [])); reflexivity.
Defined.

(** ** C2 *)

(** C2, as stated, fails: the handler serves whatever items the API
    answers with; here the catalog asks for [v1] and the record served is
    [zz]. *)
Lemma foreign_item_passes_through :
  read_catalog env_foreign = inr [mkDoc (Some "v1")]
  /\ (exists e,
        response_of (get_videos env_foreign fresh) =
          Some {| status := 200; body := JArr [e] |}
        /\ prop_of e "videoId" = Some (JStr "zz"))
  /\ ~ In (Some "zz") (requested_ids [mkDoc (Some "v1")]).
Proof.
  split; [reflexivity|]. split.
  - eexists. split; reflexivity.
  - cbn. intros [H|[]]. discriminate.
Qed.

(** C2, amended: in a 200 response the records stand one to one, in
    order, for the items of the API's answer, and each record's [videoId]
    is the [id] of its item; every served [videoId] is one of the
    requested ids provided the API answered with items of requested ids
    only (the handler does not filter). *)
Theorem videoId_mirrors_item_id (env : Env) (w : World) (resp : Response) :
  response_of (get_videos env w) = Some resp ->
  status resp = 200%Z ->
  exists docs data items elems,
    read_catalog env = inr docs
    /\ youtube env (request_url env docs) = inr data
    /\ get_prop (Some data) "items" = inr (Some (JArr items))
    /\ body resp = JArr elems
    /\ Forall2 (fun item e => prop_of e "videoId" = prop_of item "id") items elems
    /\ (Forall (fun item => exists id, prop_of item "id" = Some (JStr id)
                                      /\ In (Some id) (requested_ids docs)) items ->
        Forall (fun e => exists id, prop_of e "videoId" = Some (JStr id)
                                    /\ In (Some id) (requested_ids docs)) elems).
Proof.
  intros Hr Hs.
  destruct (ok_response_inv _ _ _ Hr Hs)
    as (docs & data & items & rs & Hc & Hy & Hi & Hm & -> & _).
  exists docs, data, items, (map enriched_to_json rs).
  pose proof (map_items_videoIds _ _ Hm) as HF.
  repeat split; try assumption.
  clear Hm Hr Hs Hi. intros Hall. induction HF as [|item e items' elems' Heq _ IH].
  - constructor.
  - inversion Hall as [|? ? (id & Hid & Hin) Hrest]; subst.
    constructor.
    + exists id. rewrite Heq. split; assumption.
    + apply IH, Hrest.
Qed.

Lemma videoId_mirrors_item_id_witness :
  exists docs data items elems,
    read_catalog env_v1_v2 = inr docs
    /\ youtube env_v1_v2 (request_url env_v1_v2 docs) = inr data
    /\ get_prop (Some data) "items" = inr (Some (JArr items))
    /\ body (res_json [record_v1]) = JArr elems
    /\ Forall2 (fun item e => prop_of e "videoId" = prop_of item "id") items elems
    /\ (Forall (fun item => exists id, prop_of item "id" = Some (JStr id)
                                      /\ In (Some id) (requested_ids docs)) items ->
        Forall (fun e => exists id, prop_of e "videoId" = Some (JStr id)
                                    /\ In (Some id) (requested_ids docs)) elems).
Proof.
  apply (videoId_mirrors_item_id env_v1_v2 fresh); reflexivity.
Defined.

(** ** C3 *)

(** C3, as stated, fails: a served record has a fifth property,
    [duration], beside the four of the client's [Video] type. *)
Lemma served_record_has_duration :
  exists e,
    response_of (get_videos env_v1_v2 fresh) =
      Some {| status := 200; body := JArr [e] |}
    /\ has_shape video_keys e = false
    /\ prop_of e "duration" = Some (JStr "PT4M13S").
Proof. eexists. repeat split. Qed.

Lemma carries_strings_shape (items : list json) (rs : list Enriched) :
  Forall carries_strings items ->
  map_items items = inr rs ->
  Forall (fun e => has_shape enriched_keys e = true) (map enriched_to_json rs).
Proof.
  intros Hall Hm. apply map_items_Forall2 in Hm.
  induction Hm as [|item r items rs Hf _ IH]; cbn; constructor.
  - inversion Hall as [|? ? (id & ttl & channel & url & dur & Hitem) _]; subst.
    rewrite Hitem in Hf. injection Hf as <-. apply has_shape_strings.
  - apply IH. inversion Hall; assumption.
Qed.

Lemma carries_strings_formats (items : list json) :
  Forall carries_strings items -> exists rs, map_items items = inr rs.
Proof.
  induction 1 as [|item items (id & ttl & channel & url & dur & Hitem) _ [rs IH]].
  - exists []. reflexivity.
  - cbn. rewrite Hitem, IH. cbn. eauto.
Qed.

(** C3, amended: every request is answered, either with 200 and a JSON
    array of objects whose properties are taken, in order, from
    [videoId], [title], [channelTitle], [thumbnail], [duration], or with
    500 and the body [{ message: 'Failed to fetch videos' }]; a failure of
    the store or of the upstream call gives the 500; and when the API
    answers with items that carry strings where the handler reads, the
    response is 200 and every element has exactly the shape
    [{ videoId, title, channelTitle, thumbnail, duration }], all strings. *)
Theorem response_shapes (env : Env) (w : World) :
  (exists resp,
     response_of (get_videos env w) = Some resp
     /\ ((status resp = 200%Z
          /\ exists elems,
               body resp = JArr elems
               /\ Forall (fun e => exists ks, served_keys e = Some ks
                                     /\ selection ks enriched_keys = true) elems)
         \/ (status resp = 500%Z
             /\ body resp = JObj [("message", JStr "Failed to fetch videos")])))
  /\ (forall e,
        read_catalog env = inl e
        \/ (exists docs, read_catalog env = inr docs
                         /\ youtube env (request_url env docs) = inl e) ->
        response_of (get_videos env w) =
          Some {| status := 500;
                  body := JObj [("message", JStr "Failed to fetch videos")] |})
  /\ (forall docs data items,
        read_catalog env = inr docs ->
        youtube env (request_url env docs) = inr data ->
        get_prop (Some data) "items" = inr (Some (JArr items)) ->
        Forall carries_strings items ->
        exists elems,
          response_of (get_videos env w) =
            Some {| status := 200; body := JArr elems |}
          /\ List.length elems = List.length items
          /\ Forall (fun e => has_shape enriched_keys e = true) elems).
Proof.
  split; [|split].
  - destruct (get_videos_responds env w) as [resp Hr]. exists resp.
    split; [exact Hr|].
    destruct (Z.eq_dec (status resp) 200) as [Hs|Hs].
    + left. split; [exact Hs|].
      destruct (ok_response_inv _ _ _ Hr Hs)
        as (docs & data & items & rs & _ & _ & _ & _ & -> & _).
      exists (map enriched_to_json rs). split; [reflexivity|].
      apply Forall_forall. intros e He. apply in_map_iff in He.
      destruct He as (r & <- & _). apply served_keys_selection.
    + right. revert Hr. unfold response_of.
      destruct (read_catalog env) as [e|docs] eqn:Hc.
      { rewrite (run_catalog_fails _ _ _ Hc). cbn. intros [= <-]. auto. }
      destruct (youtube env (request_url env docs)) as [e|data] eqn:Hy.
      { rewrite (run_upstream_fails _ _ _ _ Hc Hy). cbn. intros [= <-]. auto. }
      rewrite (run_answered _ _ _ _ Hc Hy).
      destruct (bindE _ _); cbn; intros [= <-]; auto.
      exfalso. apply Hs. reflexivity.
  - intros e [Hc|(docs & Hc & Hy)].
    + rewrite (run_catalog_fails _ _ _ Hc). reflexivity.
    + rewrite (run_upstream_fails _ _ _ _ Hc Hy). reflexivity.
  - intros docs data items Hc Hy Hi Hall.
    destruct (carries_strings_formats _ Hall) as [rs Hm].
    exists (map enriched_to_json rs).
    rewrite (run_answered _ _ _ _ Hc Hy), Hi. unfold bindE, array_map.
    rewrite Hm.
    split; [reflexivity|]. split.
    + rewrite length_map. apply map_items_Forall2 in Hm.
      symmetry. eapply Forall2_length, Hm.
    + apply carries_strings_shape with items; assumption.
Qed.

Lemma response_shapes_witness :
  response_of (get_videos env_query_fails fresh) =
    Some {| status := 500;
            body := JObj [("message", JStr "Failed to fetch videos")] |}
  /\ response_of (get_videos env_upstream_fails fresh) =
       Some {| status := 500;
               body := JObj [("message", JStr "Failed to fetch videos")] |}
  /\ exists elems,
       response_of (get_videos env_v1_v2 fresh) =
         Some {| status := 200; body := JArr elems |}
       /\ List.length elems = 1
       /\ Forall (fun e => has_shape enriched_keys e = true) elems.
Proof.
  split; [|split].
  - apply (proj1 (proj2 (response_shapes env_query_fails fresh))
             (MongoError "connection pool closed")).
    left. reflexivity.
  - apply (proj1 (proj2 (response_shapes env_upstream_fails fresh))
             (AxiosError ("Request failed with status code 403: "
                          ++ request_url env_upstream_fails [mkDoc (Some "v1")]))).
    right. exists [mkDoc (Some "v1")]. split; reflexivity.
  - apply (proj2 (proj2 (response_shapes env_v1_v2 fresh))
             [mkDoc (Some "v1"); mkDoc (Some "v2")] (answer [item_v1]) [item_v1]);
      try reflexivity.
    constructor; [|constructor].
    exists "v1", "Intro to Rocq", "Learnoverse",
      "https://i.ytimg.com/vi/v1/hqdefault.jpg", "PT4M13S".
    reflexivity.
Defined.

(** ** C4 *)

(** C4: whenever the catalog read or the upstream call fails with an
    error [e], whatever [e] is, the endpoint answers 500 with the one
    fixed message, the same for every failing request and every API key,
    and [e] goes to the server's console and nowhere else. *)
Theorem failure_response_is_generic (env : Env) (w : World) (e : js_error) :
  read_catalog env = inl e
  \/ (exists docs, read_catalog env = inr docs
                   /\ youtube env (request_url env docs) = inl e) ->
  response_of (get_videos env w) =
    Some {| status := 500;
            body := JObj [("message", JStr "Failed to fetch videos")] |}
  /\ console (world_of (get_videos env w)) =
       (console w ++ [("Error fetching videos:", e)])%list
  /\ (forall env' w' e',
        read_catalog env' = inl e'
        \/ (exists docs', read_catalog env' = inr docs'
                          /\ youtube env' (request_url env' docs') = inl e') ->
        response_of (get_videos env' w') = response_of (get_videos env w)).
Proof.
  assert (Hgen : forall env0 w0 e0,
             read_catalog env0 = inl e0
             \/ (exists docs, read_catalog env0 = inr docs
                              /\ youtube env0 (request_url env0 docs) = inl e0) ->
             get_videos env0 w0 = (inr res_failed, logged w0 e0)
             \/ exists url, get_videos env0 w0 = (inr res_failed, logged (sent w0 url) e0)).
  { intros env0 w0 e0 [Hc|(docs & Hc & Hy)].
    - left. apply run_catalog_fails, Hc.
    - right. exists (request_url env0 docs). apply run_upstream_fails; assumption. }
  intros H.
  assert (Hresp : forall env0 w0 e0,
             read_catalog env0 = inl e0
             \/ (exists docs, read_catalog env0 = inr docs
                              /\ youtube env0 (request_url env0 docs) = inl e0) ->
             response_of (get_videos env0 w0) = Some res_failed).
  { intros env0 w0 e0 H0.
    destruct (Hgen env0 w0 e0 H0) as [->|[url ->]]; reflexivity. }
  split; [|split].
  - apply (Hresp env w e H).
  - destruct (Hgen env w e H) as [->|[url ->]]; reflexivity.
  - intros env' w' e' H'. rewrite (Hresp env w e H). apply (Hresp env' w' e' H').
Qed.

Lemma failure_response_is_generic_witness :
  response_of (get_videos env_upstream_fails fresh) =
    Some {| status := 500;
            body := JObj [("message", JStr "Failed to fetch videos")] |}
  /\ console (world_of (get_videos env_upstream_fails fresh)) =
       (console fresh
        ++ [("Error fetching videos:",
             AxiosError ("Request failed with status code 403: "
                         ++ request_url env_upstream_fails [mkDoc (Some "v1")]))])%list
  /\ (forall env' w' e',
        read_catalog env' = inl e'
        \/ (exists docs', read_catalog env' = inr docs'
                          /\ youtube env' (request_url env' docs') = inl e') ->
        response_of (get_videos env' w') =
        response_of (get_videos env_upstream_fails fresh)).
Proof.
  apply (failure_response_is_generic env_upstream_fails fresh).
  right. exists [mkDoc (Some "v1")]. split; reflexivity.
Defined.

(** ** C6 *)

(** C6, as stated, fails: the handler sends one request whatever the
    size of the catalog.  For 51 ids and a batch size of 50 the claim
    asks for two calls; for no id it asks for none, whatever the batch
    size. *)
Lemma big_catalog_single_request :
  (read_catalog (env_big 51) = inr (big_catalog 51)
   /\ List.length (big_catalog 51) = 51
   /\ List.length (outbound (world_of (get_videos (env_big 51) fresh))) = 1
   /\ ceil_div 51 50 = 2)
  /\ (read_catalog (env_big 0) = inr []
      /\ List.length (outbound (world_of (get_videos (env_big 0) fresh))) = 1
      /\ forall maxBatchSize, 0 < maxBatchSize -> ceil_div 0 maxBatchSize = 0).
Proof.
  split.
  - split; [reflexivity|]. split; [reflexivity|]. split; [|reflexivity].
    rewrite (one_request _ _ (big_catalog 51)); reflexivity.
  - split; [reflexivity|]. split; [reflexivity|].
    intros m Hm. unfold ceil_div. cbn [Nat.add].
    apply Nat.div_small. lia.
Qed.

(** C6, amended: for every catalog of N documents that the store hands
    over, the handler issues exactly one outbound call, whatever N is,
    asking for the N ids joined by commas (it never splits), and a 200
    response carries exactly as many records as the API answered items
    (so at most N when the API answers at most N items), none of them a
    placeholder for an id left unresolved. *)
Theorem one_request_whatever_the_size (env : Env) (w : World) (docs : list Doc) :
  read_catalog env = inr docs ->
  outbound (world_of (get_videos env w)) =
    (outbound w
     ++ [youtubeApiUrl (String.concat "," (map join_elem (requested_ids docs)))
                       (youtubeApiKey env)])%list
  /\ (forall resp,
        response_of (get_videos env w) = Some resp ->
        status resp = 200%Z ->
        exists data items elems,
          youtube env (request_url env docs) = inr data
          /\ get_prop (Some data) "items" = inr (Some (JArr items))
          /\ body resp = JArr elems
          /\ List.length elems = List.length items
          /\ Forall2 (fun item e => prop_of e "videoId" = prop_of item "id")
                     items elems).
Proof.
  intros Hc. split.
  - apply one_request, Hc.
  - intros resp Hr Hs.
    destruct (ok_response_inv _ _ _ Hr Hs)
      as (docs' & data & items & rs & Hc' & Hy & Hi & Hm & -> & _).
    rewrite Hc in Hc'. injection Hc' as <-.
    exists data, items, (map enriched_to_json rs).
    repeat split; try assumption.
    + rewrite length_map. apply map_items_Forall2 in Hm.
      symmetry. eapply Forall2_length, Hm.
    + apply map_items_videoIds, Hm.
Qed.

Lemma one_request_whatever_the_size_witness :
  outbound (world_of (get_videos env_v1_v2 fresh)) =
    ["https://www.googleapis.com/youtube/v3/videos?part=snippet,contentDetails&id=v1,v2&key=KEY"]
  /\ (forall resp,
        response_of (get_videos env_v1_v2 fresh) = Some resp ->
        status resp = 200%Z ->
        exists data items elems,
          youtube env_v1_v2
            (request_url env_v1_v2 [mkDoc (Some "v1"); mkDoc (Some "v2")]) = inr data
          /\ get_prop (Some data) "items" = inr (Some (JArr items))
          /\ body resp = JArr elems
          /\ List.length elems = List.length items
          /\ Forall2 (fun item e => prop_of e "videoId" = prop_of item "id")
                     items elems).
Proof.
  apply (one_request_whatever_the_size env_v1_v2 fresh
           [mkDoc (Some "v1"); mkDoc (Some "v2")]).
  reflexivity.
Defined.

(** ** C7 *)

(** C7: when the API answers with a list of items, each of which the
    callback can format, the endpoint responds 200 with one record per
    item, in the order of the answer: the [videoId]s served are, position
    by position, the [id]s answered, nothing added, dropped, merged or
    moved; so a requested id that no answered item carries is on no served
    record. *)
Theorem records_follow_api_order
    (env : Env) (w : World) (docs : list Doc) (data : json)
    (items : list json) (rs : list Enriched) :
  read_catalog env = inr docs ->
  youtube env (request_url env docs) = inr data ->
  get_prop (Some data) "items" = inr (Some (JArr items)) ->
  Forall2 (fun item r => format_item item = inr r) items rs ->
  response_of (get_videos env w) =
    Some {| status := 200; body := JArr (map enriched_to_json rs) |}
  /\ List.length (map enriched_to_json rs) = List.length items
  /\ map (fun e => prop_of e "videoId") (map enriched_to_json rs) =
       map (fun item => prop_of item "id") items
  /\ (forall id,
        In (Some id) (requested_ids docs) ->
        ~ In (Some (JStr id)) (map (fun item => prop_of item "id") items) ->
        ~ In (Some (JStr id))
             (map (fun e => prop_of e "videoId") (map enriched_to_json rs))).
Proof.
  intros Hc Hy Hi HF.
  assert (Hids : map (fun e => prop_of e "videoId") (map enriched_to_json rs) =
                 map (fun item => prop_of item "id") items).
  { clear Hi. induction HF as [|item r items rs Hf _ IH]; cbn.
    - reflexivity.
    - rewrite (served_videoId _ _ Hf), IH. reflexivity. }
  split; [|split; [|split]].
  - apply map_items_Forall2 in HF.
    rewrite (run_answered _ _ _ _ Hc Hy), Hi. unfold bindE, array_map.
    rewrite HF. reflexivity.
  - rewrite length_map. symmetry. eapply Forall2_length, HF.
  - exact Hids.
  - intros id _ Hnot. rewrite Hids. exact Hnot.
Qed.

Lemma records_follow_api_order_witness :
  response_of (get_videos env_v1_v2 fresh) =
    Some {| status := 200;
            body := JArr [JObj [("videoId", JStr "v1");
                                ("title", JStr "Intro to Rocq");
                                ("channelTitle", JStr "Learnoverse");
                                ("thumbnail", JStr "https://i.ytimg.com/vi/v1/hqdefault.jpg");
                                ("duration", JStr "PT4M13S")]] |}
  /\ ~ In (Some (JStr "v2"))
          (map (fun e => prop_of e "videoId")
               [JObj [("videoId", JStr "v1");
                      ("title", JStr "Intro to Rocq");
                      ("channelTitle", JStr "Learnoverse");
                      ("thumbnail", JStr "https://i.ytimg.com/vi/v1/hqdefault.jpg");
                      ("duration", JStr "PT4M13S")]]).
Proof.
  destruct (records_follow_api_order env_v1_v2 fresh
              [mkDoc (Some "v1"); mkDoc (Some "v2")] (answer [item_v1]) [item_v1]
              [record_v1])
    as (Hresp & _ & _ & Habsent); try reflexivity.
  { constructor; [reflexivity|constructor]. }
  split.
  - exact Hresp.
  - apply (Habsent "v2").
    + right. left. reflexivity.
    + cbn. intros [H|[]]. discriminate.
Defined.

(** ** C8 *)

(** C8: if the store connection was never established, or the query
    rejects, the endpoint answers 500 (not an empty list) and the request
    sends nothing to the external API. *)
Theorem store_failure_never_reaches_api (env : Env) (w : World) :
  db env = None
  \/ (exists database e, db env = Some database /\ database "videos" = inl e) ->
  response_of (get_videos env w) =
    Some {| status := 500;
            body := JObj [("message", JStr "Failed to fetch videos")] |}
  /\ outbound (world_of (get_videos env w)) = outbound w
  /\ exists e, read_catalog env = inl e
               /\ console (world_of (get_videos env w)) =
                    (console w ++ [("Error fetching videos:", e)])%list.
Proof.
  intros H.
  assert (He : exists e, read_catalog env = inl e).
  { unfold read_catalog.
    destruct H as [->|(database & e & -> & Hq)]; [eauto|].
    rewrite Hq. eauto. }
  destruct He as [e Hc].
  rewrite (run_catalog_fails _ _ _ Hc).
  split; [reflexivity|]. split; [reflexivity|].
  exists e. split; [exact Hc|reflexivity].
Qed.

Lemma store_failure_never_reaches_api_witness :
  (response_of (get_videos env_no_db fresh) =
     Some {| status := 500;
             body := JObj [("message", JStr "Failed to fetch videos")] |}
   /\ outbound (world_of (get_videos env_no_db fresh)) = outbound fresh
   /\ exists e, read_catalog env_no_db = inl e
                /\ console (world_of (get_videos env_no_db fresh)) =
                     (console fresh ++ [("Error fetching videos:", e)])%list)
  /\ (response_of (get_videos env_query_fails fresh) =
        Some {| status := 500;
                body := JObj [("message", JStr "Failed to fetch videos")] |}
      /\ outbound (world_of (get_videos env_query_fails fresh)) = outbound fresh
      /\ exists e, read_catalog env_query_fails = inl e
                   /\ console (world_of (get_videos env_query_fails fresh)) =
                        (console fresh ++ [("Error fetching videos:", e)])%list).
Proof.
  split.
  - apply (store_failure_never_reaches_api env_no_db fresh).
    left. reflexivity.
  - apply (store_failure_never_reaches_api env_query_fails fresh).
    right. exists (fun _ => inl (MongoError "connection pool closed")),
             (MongoError "connection pool closed").
    split; reflexivity.
Defined.

End ServerFacts.

(* ================================================================== *)
(** * Properties of the client *)
(* ================================================================== *)

Module ClientFacts.
Import Client.

(** ** Runs *)

Lemma run_app (a final : App) (pre post : list Event) :
  run a (pre ++ post) = Some final ->
  exists mid, run a pre = Some mid /\ run mid post = Some final.
Proof.
  revert a. induction pre as [|e pre IH]; cbn [app run]; intros a H.
  - exists a. split; [reflexivity|exact H].
  - destruct (enabled a e); [|discriminate]. apply IH, H.
Qed.

(** An induction principle for runs: what holds at the start and is kept
    by every event that can happen holds at the end. *)
Lemma run_invariant (P : App -> Prop) :
  (forall a e, enabled a e = true -> P a -> P (handle e a)) ->
  forall trace a final, run a trace = Some final -> P a -> P final.
Proof.
  intros Hstep. induction trace as [|e rest IH]; cbn [run]; intros a final H Ha.
  - injection H as <-. exact Ha.
  - destruct (enabled a e) eqn:Hen; [|discriminate].
    apply (IH _ _ H), Hstep; assumption.
Qed.

(** ** [fetchVideos] *)

Lemma settle_clears_flags (r : FetchResult) (a : App) :
  isLoading (hooks (fetchVideos_settle r a)) = false
  /\ refreshing (hooks (fetchVideos_settle r a)) = false.
Proof.
  unfold fetchVideos_settle. destruct (fetch_try r); split; reflexivity.
Qed.

Lemma settle_failure (r : FetchResult) (reason : string) (a : App) :
  fetch_try r = inl reason ->
  videos (hooks (fetchVideos_settle r a)) = videos (hooks a)
  /\ error (hooks (fetchVideos_settle r a)) =
       Some "Failed to fetch videos. Pull down to retry."
  /\ effects (fetchVideos_settle r a) = (effects a ++ [ConsoleError reason])%list.
Proof.
  intros H. unfold fetchVideos_settle. rewrite H. repeat split.
Qed.

Lemma settle_success (r : FetchResult) (data : list Video) (a : App) :
  fetch_try r = inr data ->
  videos (hooks (fetchVideos_settle r a)) = data
  /\ error (hooks (fetchVideos_settle r a)) = None
  /\ effects (fetchVideos_settle r a) = effects a.
Proof.
  intros H. unfold fetchVideos_settle. rewrite H. repeat split.
Qed.

(** ** C5 *)

(** C5: a fetch that succeeds with [[A, B]] leaves the loader Loaded with
    exactly [[A, B]]; a refresh started from there that fails (the request
    rejects, the status is not ok, or the body does not parse) leaves it
    Failed, with the error string set and the list still [[A, B]]; and
    whatever way a fetch settles, the refresh flag is off afterwards. *)
Theorem stale_list_survives_failed_refresh
    (a : App) (A B : Video) (r : FetchResult) (reason : string) :
  fetch_try r = inl reason ->
  let loaded := fetchVideos_settle (Responded true (inr [A; B])) a in
  let pulled := onRefresh loaded in
  let failed := fetchVideos_settle r pulled in
  (phase (hooks loaded) = Loaded /\ videos (hooks loaded) = [A; B]
   /\ error (hooks loaded) = None)
  /\ (phase (hooks pulled) = Refreshing /\ refreshing (hooks pulled) = true)
  /\ (phase (hooks failed) = Failed
      /\ error (hooks failed) = Some "Failed to fetch videos. Pull down to retry."
      /\ videos (hooks failed) = [A; B]
      /\ refreshing (hooks failed) = false)
  /\ (forall r' a', refreshing (hooks (fetchVideos_settle r' a')) = false).
Proof.
  intros Hr loaded pulled failed.
  split; [repeat split|]. split; [repeat split|]. split.
  - destruct (settle_failure r reason pulled Hr) as (Hv & He & _).
    destruct (settle_clears_flags r pulled) as (Hl & Hf).
    fold failed in Hv, He, Hl, Hf.
    unfold phase. rewrite Hl, Hf, He, Hv. repeat split.
  - intros r' a'. apply settle_clears_flags.
Qed.

Lemma stale_list_survives_failed_refresh_witness :
  let loaded := fetchVideos_settle (Responded true (inr [video_A; video_B]))
                                   (mount "android") in
  let pulled := onRefresh loaded in
  let failed := fetchVideos_settle (Rejected "Network request failed") pulled in
  (phase (hooks loaded) = Loaded /\ videos (hooks loaded) = [video_A; video_B]
   /\ error (hooks loaded) = None)
  /\ (phase (hooks pulled) = Refreshing /\ refreshing (hooks pulled) = true)
  /\ (phase (hooks failed) = Failed
      /\ error (hooks failed) = Some "Failed to fetch videos. Pull down to retry."
      /\ videos (hooks failed) = [video_A; video_B]
      /\ refreshing (hooks failed) = false)
  /\ (forall r' a', refreshing (hooks (fetchVideos_settle r' a')) = false).
Proof.
  apply (stale_list_survives_failed_refresh (mount "android") video_A video_B
           (Rejected "Network request failed") "Network request failed").
  reflexivity.
Defined.

(** ** C9 *)

Lemma closed_stays_closed (e : Event) (a : App) :
  selectedVideo (hooks a) = None ->
  is_tap e = false ->
  selectedVideo (hooks (handle e a)) = None.
Proof.
  intros Hs Ht. destruct e; cbn in *; try assumption; try reflexivity;
    try discriminate.
  - unfold fetchVideos_settle. destruct (fetch_try r); cbn; assumption.
  - unfold onPlayerStateChange. destruct (String.eqb state "ended"); cbn;
      [reflexivity|assumption].
Qed.

Lemma closed_run (trace : list Event) (a final : App) :
  selectedVideo (hooks a) = None ->
  existsb is_tap trace = false ->
  run a trace = Some final ->
  selectedVideo (hooks final) = None.
Proof.
  revert a. induction trace as [|e rest IH]; cbn; intros a Hs Ht Hrun.
  - injection Hrun as <-. exact Hs.
  - apply orb_false_iff in Ht. destruct Ht as [He Hrest].
    destruct (enabled a e); [|discriminate].
    apply (IH (handle e a)); auto using closed_stays_closed.
Qed.

(** C9: with the overlay open, the player's state-change signal closes
    it when the state is "ended" and does nothing for any other state;
    the player's error signal logs the error, puts the alert "Playback
    Error" on screen while the overlay is still open, and then closes it;
    and once closed either way the overlay is off the screen, the
    player's signals have nothing left to reach, and nothing the
    component does reopens it: it stays closed until the user taps a list
    item again. *)
Theorem player_signals_close_overlay (a : App) (v : Video) (err : string) :
  selectedVideo (hooks a) = Some v ->
  let ended := handle (PlayerStateChange "ended") a in
  let alerted :=
    emit (Alert "Playback Error"
                "This video cannot be played. It may be restricted by the owner.")
         (emit (ConsoleError ("YouTube Player Error: " ++ err)) a) in
  let failed := handle (PlayerError err) a in
  (selectedVideo (hooks ended) = None /\ effects ended = effects a)
  /\ (forall state, state <> "ended" -> handle (PlayerStateChange state) a = a)
  /\ (selectedVideo (hooks alerted) = Some v
      /\ failed = closePlayer alerted
      /\ effects failed =
           (effects a
            ++ [ConsoleError ("YouTube Player Error: " ++ err);
                Alert "Playback Error"
                      "This video cannot be played. It may be restricted by the owner."])%list
      /\ selectedVideo (hooks failed) = None)
  /\ (forall closed,
        closed = ended \/ closed = failed ->
        player_shown (hooks closed) = false
        /\ (forall state, enabled closed (PlayerStateChange state) = false)
        /\ (forall err', enabled closed (PlayerError err') = false)
        /\ (forall trace final,
              existsb is_tap trace = false ->
              run closed trace = Some final ->
              selectedVideo (hooks final) = None
              /\ player_shown (hooks final) = false)).
Proof.
  intros Hs ended alerted failed.
  assert (Hnone : forall c, selectedVideo (hooks c) = None ->
                            player_shown (hooks c) = false).
  { intros c Hc. unfold player_shown, render. rewrite Hc.
    destruct (isSplashVisible (hooks c)); reflexivity. }
  split; [split; reflexivity|].
  split.
  { intros state Hstate. cbn [handle]. unfold onPlayerStateChange.
    apply String.eqb_neq in Hstate. rewrite Hstate. reflexivity. }
  split.
  - split; [exact Hs|]. split; [reflexivity|]. split; [|reflexivity].
    cbn. rewrite <- app_assoc. reflexivity.
  - intros closed Hclosed.
    assert (Hc : selectedVideo (hooks closed) = None)
      by (destruct Hclosed as [->| ->]; reflexivity).
    split; [apply Hnone, Hc|].
    split; [intros state; cbn; apply Hnone, Hc|].
    split; [intros err'; cbn; apply Hnone, Hc|].
    intros trace final Ht Hrun.
    pose proof (closed_run trace closed final Hc Ht Hrun) as Hf.
    split; [exact Hf|apply Hnone, Hf].
Qed.

Lemma player_signals_close_overlay_witness :
  let ended := handle (PlayerStateChange "ended") app_playing in
  let alerted :=
    emit (Alert "Playback Error"
                "This video cannot be played. It may be restricted by the owner.")
         (emit (ConsoleError ("YouTube Player Error: " ++ "150")) app_playing) in
  let failed := handle (PlayerError "150") app_playing in
  (selectedVideo (hooks ended) = None /\ effects ended = effects app_playing)
  /\ handle (PlayerStateChange "playing") app_playing = app_playing
  /\ (selectedVideo (hooks alerted) = Some video_A
      /\ failed = closePlayer alerted
      /\ effects failed =
           (effects app_playing
            ++ [ConsoleError ("YouTube Player Error: " ++ "150");
                Alert "Playback Error"
                      "This video cannot be played. It may be restricted by the owner."])%list
      /\ selectedVideo (hooks failed) = None)
  /\ (player_shown (hooks ended) = false
      /\ player_shown (hooks failed) = false
      /\ selectedVideo
           (hooks (handle InfoPressed (handle (PullRefresh) failed))) = None).
Proof.
  intros ended alerted failed.
  destruct (player_signals_close_overlay app_playing video_A "150" eq_refl)
    as (Hended & Hother & Hfailed & Hclosed).
  split; [exact Hended|].
  split; [apply (Hother "playing"); discriminate|].
  split; [exact Hfailed|].
  destruct (Hclosed ended (or_introl eq_refl)) as (He & _).
  destruct (Hclosed failed (or_intror eq_refl)) as (Hf & _ & _ & Hrun).
  split; [exact He|]. split; [exact Hf|].
  apply (Hrun [PullRefresh; InfoPressed]
              (handle InfoPressed (handle PullRefresh failed))).
  - reflexivity.
  - vm_compute. reflexivity.
Defined.

(** ** C10 *)

Lemma handle_isLoading (e : Event) (a : App) :
  isLoading (hooks (handle e a)) = isLoading (hooks a) && negb (is_settle e).
Proof.
  destruct e; cbn [handle is_settle negb];
    try (rewrite andb_true_r; reflexivity).
  - rewrite andb_false_r. apply settle_clears_flags.
  - unfold onPlayerStateChange. destruct (String.eqb state "ended");
      rewrite andb_true_r; reflexivity.
Qed.

Lemma run_isLoading (trace : list Event) (a final : App) :
  run a trace = Some final ->
  isLoading (hooks final) = isLoading (hooks a) && negb (existsb is_settle trace).
Proof.
  revert a. induction trace as [|e rest IH]; cbn; intros a Hrun.
  - injection Hrun as <-. rewrite andb_true_r. reflexivity.
  - destruct (enabled a e); [|discriminate].
    rewrite (IH _ Hrun), handle_isLoading, negb_orb, andb_assoc. reflexivity.
Qed.

Lemma list_shown_spec (s : State) :
  list_shown s =
  negb (isSplashVisible s) && negb (isLoading s)
  && negb (truthy (error s) && Nat.eqb (List.length (videos s)) 0).
Proof.
  unfold list_shown, render, content.
  destruct (isSplashVisible s), (isLoading s); cbn; try reflexivity.
  destruct (truthy (error s) && Nat.eqb (List.length (videos s)) 0); reflexivity.
Qed.

Lemma list_shown_render (s : State) :
  list_shown s = true ->
  render s = Main (VideoList (videos s) (refreshing s))
                  (selectedVideo s) (infoModalVisible s).
Proof.
  unfold list_shown, render, content.
  destruct (isSplashVisible s); [discriminate|].
  destruct (isLoading s); [discriminate|].
  destruct (truthy (error s) && Nat.eqb (List.length (videos s)) 0);
    [discriminate|reflexivity].
Qed.

Lemma handle_refresh_in_list (e : Event) (a : App) :
  enabled a e = true ->
  refresh_in_list a ->
  refresh_in_list (handle e a).
Proof.
  unfold refresh_in_list. intros Hen Hinv.
  destruct e; cbn [enabled handle] in *;
    try (unfold onPlayerStateChange; destruct (String.eqb state "ended"));
    try (unfold fetchVideos_settle; destruct (fetch_try r));
    rewrite ?list_shown_spec in *;
    destruct a as [[sp vs sel ld er info rf] eff n t os]; cbn in *;
    try exact Hinv; try discriminate.
  - intros Hr. specialize (Hinv Hr).
    apply andb_true_iff in Hinv as [Hinv H3].
    apply andb_true_iff in Hinv as [_ H2]. rewrite H2, H3. reflexivity.
  - intros _. exact Hen.
Qed.

Lemma run_refresh_in_list (trace : list Event) (a final : App) :
  run a trace = Some final ->
  refresh_in_list a ->
  refresh_in_list final.
Proof.
  revert a. induction trace as [|e rest IH]; cbn; intros a Hrun Hinv.
  - injection Hrun as <-. exact Hinv.
  - destruct (enabled a e) eqn:Hen; [|discriminate].
    apply (IH _ Hrun), handle_refresh_in_list; assumption.
Qed.

Lemma loading_nothing_selected (trace : list Event) (a final : App) :
  run a trace = Some final ->
  (isLoading (hooks a) = true -> selectedVideo (hooks a) = None) ->
  isLoading (hooks final) = true -> selectedVideo (hooks final) = None.
Proof.
  apply (run_invariant
           (fun b => isLoading (hooks b) = true -> selectedVideo (hooks b) = None)).
  clear. intros b e Hen Hb Hl.
  rewrite handle_isLoading in Hl. apply andb_true_iff in Hl as [Hl Hns].
  destruct e; try (apply closed_stays_closed; [apply Hb, Hl|reflexivity]).
  cbn [enabled] in Hen. rewrite list_shown_spec, Hl in Hen.
  rewrite andb_false_r in Hen. discriminate.
Qed.

Lemma run_no_settle (trace : list Event) (a final : App) :
  run a trace = Some final ->
  existsb is_settle trace = false ->
  videos (hooks final) = videos (hooks a)
  /\ (refreshing (hooks a) = true -> refreshing (hooks final) = true).
Proof.
  revert a. induction trace as [|e rest IH]; cbn [run existsb]; intros a Hrun Hno.
  - injection Hrun as <-. auto.
  - apply orb_false_iff in Hno. destruct Hno as [He Hrest].
    destruct (enabled a e); [|discriminate].
    destruct (IH _ Hrun Hrest) as [Hv Hr]. rewrite Hv. clear IH Hrun Hv.
    destruct e as [|r| |i|state|err| | |]; cbn [is_settle] in He;
      try discriminate; cbn [handle] in *;
      try (unfold onPlayerStateChange in *; destruct (String.eqb state "ended"));
      (split; [reflexivity|intros Href; apply Hr; cbn; auto]).
Qed.

(** C10, as stated, fails for refreshes that overlap: the list can be
    pulled again while a refresh is under way; the first fetch to settle
    clears the refresh flag, and the refresh still in flight is then
    shown without the indicator or, after a failure over an empty list,
    as the error text. *)
Lemma overlapping_refresh_loses_indicator :
  (exists a,
     run (mount "android")
         [FetchSettled (Responded true (inr [video_A; video_B]));
          SplashTimeout; PullRefresh; PullRefresh;
          FetchSettled (Rejected "Network request failed")] = Some a
     /\ in_flight a = 1
     /\ render (hooks a) = Main (VideoList [video_A; video_B] false) None false)
  /\ (exists a,
        run (mount "android")
            [FetchSettled (Responded true (inr []));
             SplashTimeout; PullRefresh; PullRefresh;
             FetchSettled (Rejected "Network request failed")] = Some a
        /\ in_flight a = 1
        /\ render (hooks a) =
             Main (ErrorText (Some "Failed to fetch videos. Pull down to retry."))
                  None false).
Proof.
  split; eexists; (split; [vm_compute; reflexivity|split; reflexivity]).
Qed.

(** C10, amended: [isLoading] starts true and, in every state the
    mounted component can reach, it is true exactly when no fetch has
    settled yet: the first settlement, success or failure, turns it off
    and nothing turns it on again.  So, once the splash is gone, the
    skeleton is what is rendered until the first fetch settles and never
    after that, when the content is the error text or the list; a refresh
    can be pulled only after the first settlement, on the list, and for
    as long as no fetch has settled since the pull the render is that
    same list with the refresh indicator on. *)
Theorem skeleton_only_before_first_settle
    (os : string) (trace : list Event) (a : App) :
  run (mount os) trace = Some a ->
  isLoading (hooks (mount os)) = true
  /\ isLoading (hooks a) = negb (existsb is_settle trace)
  /\ (existsb is_settle trace = false ->
      isSplashVisible (hooks a) = false ->
      render (hooks a) = Main (Skeleton 5) None (infoModalVisible (hooks a)))
  /\ (existsb is_settle trace = true ->
      skeleton_shown (hooks a) = false
      /\ (isSplashVisible (hooks a) = false ->
          render (hooks a) =
            Main (ErrorText (error (hooks a)))
                 (selectedVideo (hooks a)) (infoModalVisible (hooks a))
          \/ render (hooks a) =
               Main (VideoList (videos (hooks a)) (refreshing (hooks a)))
                    (selectedVideo (hooks a)) (infoModalVisible (hooks a))))
  /\ (forall pre post mid,
        trace = (pre ++ PullRefresh :: post)%list ->
        run (mount os) pre = Some mid ->
        existsb is_settle post = false ->
        existsb is_settle pre = true
        /\ render (hooks mid) =
             Main (VideoList (videos (hooks mid)) (refreshing (hooks mid)))
                  (selectedVideo (hooks mid)) (infoModalVisible (hooks mid))
        /\ render (hooks a) =
             Main (VideoList (videos (hooks mid)) true)
                  (selectedVideo (hooks a)) (infoModalVisible (hooks a))).
Proof.
  intros Hrun.
  pose proof (run_isLoading _ _ _ Hrun) as Hload. cbn [mount] in Hload.
  change (isLoading (hooks a) = negb (existsb is_settle trace)) in Hload.
  assert (Hinv : refresh_in_list a).
  { apply (run_refresh_in_list _ _ _ Hrun). intros H. discriminate H. }
  split; [reflexivity|]. split; [exact Hload|]. split; [|split].
  - intros Hno Hsp. rewrite Hno in Hload.
    assert (Hsel : selectedVideo (hooks a) = None).
    { apply (loading_nothing_selected _ _ _ Hrun); [reflexivity|exact Hload]. }
    unfold render, content. rewrite Hsp, Hload, Hsel. reflexivity.
  - intros Hyes. rewrite Hyes in Hload. cbn [negb] in Hload. split.
    + unfold skeleton_shown, render, content. rewrite Hload.
      destruct (isSplashVisible (hooks a)); [reflexivity|].
      destruct (truthy (error (hooks a)) && _); reflexivity.
    + intros Hsp. unfold render, content. rewrite Hsp, Hload.
      destruct (truthy (error (hooks a)) && _); auto.
  - intros pre post mid -> Hmid Hno.
    destruct (run_app _ _ _ _ Hrun) as (mid' & Hpre & Hpost).
    rewrite Hmid in Hpre. injection Hpre as <-.
    cbn [run] in Hpost.
    destruct (enabled mid PullRefresh) eqn:Hen; [|discriminate].
    cbn [enabled] in Hen.
    pose proof (run_isLoading _ _ _ Hmid) as Hlmid. cbn [mount] in Hlmid.
    change (isLoading (hooks mid) = negb (existsb is_settle pre)) in Hlmid.
    split; [|split].
    + rewrite list_shown_spec, Hlmid in Hen.
      destruct (existsb is_settle pre); [reflexivity|].
      cbn in Hen. rewrite andb_false_r in Hen. discriminate.
    + apply list_shown_render, Hen.
    + destruct (run_no_settle _ _ _ Hpost Hno) as [Hv Hr].
      cbn [handle] in Hv, Hr.
      specialize (Hr eq_refl).
      rewrite (list_shown_render _ (Hinv Hr)), Hr, Hv. reflexivity.
Qed.

Lemma skeleton_only_before_first_settle_witness :
  render (hooks (splash_timeout (mount "android"))) = Main (Skeleton 5) None false
  /\ (isLoading (hooks app_browsing) = false
      /\ render (hooks app_browsing) =
           Main (VideoList [video_A; video_B] false) None false)
  /\ render (hooks (handle InfoPressed (onRefresh app_browsing))) =
       Main (VideoList [video_A; video_B] true) None true.
Proof.
  split; [|split].
  - destruct (skeleton_only_before_first_settle "android" [SplashTimeout]
                (splash_timeout (mount "android")) eq_refl)
      as (_ & _ & Hskel & _).
    apply Hskel; reflexivity.
  - destruct (skeleton_only_before_first_settle "android"
                [FetchSettled (Responded true (inr [video_A; video_B]));
                 SplashTimeout]
                app_browsing eq_refl)
      as (_ & Hload & _ & Hafter & _).
    split; [exact Hload|].
    destruct (Hafter eq_refl) as [_ Hcontent].
    destruct (Hcontent eq_refl) as [Herr|Hlist]; [discriminate Herr|exact Hlist].
  - assert (Hrun : run (mount "android")
                       [FetchSettled (Responded true (inr [video_A; video_B]));
                        SplashTimeout; PullRefresh; InfoPressed]
                   = Some (handle InfoPressed (onRefresh app_browsing)))
      by (vm_compute; reflexivity).
    destruct (skeleton_only_before_first_settle "android" _ _ Hrun)
      as (_ & _ & _ & _ & Hpull).
    destruct (Hpull [FetchSettled (Responded true (inr [video_A; video_B]));
                     SplashTimeout]
                    [InfoPressed] app_browsing eq_refl eq_refl eq_refl)
      as (_ & _ & Hrender).
    exact Hrender.
Defined.

End ClientFacts.
(* ================================================================== *)
(** * Further properties of the server *)
(* ================================================================== *)

Module ServerMore.
Import Server ServerFacts.

#[local] Arguments youtubeApiUrl : simpl never.
#[local] Arguments videoIds : simpl never.

(** ** What the callback needs of an item *)

Ltac read k f :=
  destruct (assoc k f) as [[| | | | |?]|];
  cbn; try (eexists; reflexivity);
  try (eexists; repeat split; reflexivity).

Lemma format_item_cases (item : json) :
  if readable item
  then exists r,
         format_item item = inr r
         /\ videoId r = path (Some item) ["id"]
         /\ title r = path (Some item) ["snippet"; "title"]
         /\ channelTitle r = path (Some item) ["snippet"; "channelTitle"]
         /\ thumbnail r = path (Some item) ["snippet"; "thumbnails"; "high"; "url"]
         /\ duration r = path (Some item) ["contentDetails"; "duration"]
  else exists msg, format_item item = inl (TypeError msg).
Proof.
  destruct item as [| | | | |fields]; cbn; try (eexists; reflexivity).
  cbv [readable path prop_of get_prop nullish].
  read "snippet" fields.
  all: match goal with
       | |- context [assoc "thumbnails" ?f] => read "thumbnails" f
       | _ => idtac
       end.
  all: match goal with
       | |- context [assoc "high" ?f] => read "high" f
       | _ => idtac
       end.
  all: read "contentDetails" fields.
Qed.

Lemma map_items_cases (items : list json) :
  if forallb readable items
  then exists rs, map_items items = inr rs
  else exists msg, map_items items = inl (TypeError msg).
Proof.
  induction items as [|item rest IH]; cbn [forallb map_items].
  - exists []. reflexivity.
  - pose proof (format_item_cases item) as Hitem.
    destruct (readable item); cbn [andb].
    + destruct Hitem as (r & -> & _). cbn [bindE].
      destruct (forallb readable rest).
      * destruct IH as [rs ->]. eexists. reflexivity.
      * destruct IH as [msg ->]. eexists. reflexivity.
    + destruct Hitem as [msg ->]. eexists. reflexivity.
Qed.

Lemma served_props (r : Enriched) :
  prop_of (enriched_to_json r) "videoId" = videoId r
  /\ prop_of (enriched_to_json r) "title" = title r
  /\ prop_of (enriched_to_json r) "channelTitle" = channelTitle r
  /\ prop_of (enriched_to_json r) "thumbnail" = thumbnail r
  /\ prop_of (enriched_to_json r) "duration" = duration r.
Proof.
  destruct r as [[i|] [t|] [c|] [u|] [d|]]; repeat split.
Qed.

(** ** The answer of the API, item by item *)

(** X1.  Once the catalog is read and the API has answered with an item
    list, the response is all or nothing: 200 exactly when every item has
    the objects the callback reads through; one item without them (a
    [null] item, no [snippet], no [thumbnails.high], no [contentDetails])
    turns the whole response into the 500, with a [TypeError] on the
    server's console, however many good items stand beside it. *)
Theorem answer_is_all_or_nothing
    (env : Env) (w : World) (docs : list Doc) (data : json) (items : list json) :
  read_catalog env = inr docs ->
  youtube env (request_url env docs) = inr data ->
  get_prop (Some data) "items" = inr (Some (JArr items)) ->
  (forallb readable items = true ->
     exists elems,
       response_of (get_videos env w) = Some {| status := 200; body := JArr elems |}
       /\ List.length elems = List.length items
       /\ console (world_of (get_videos env w)) = console w)
  /\ (forallb readable items = false ->
       response_of (get_videos env w) = Some res_failed
       /\ exists msg,
            console (world_of (get_videos env w)) =
              (console w ++ [("Error fetching videos:", TypeError msg)])%list).
Proof.
  intros Hc Hy Hi.
  rewrite (run_answered _ _ _ _ Hc Hy), Hi.
  unfold bindE, array_map.
  pose proof (map_items_cases items) as Hm.
  split; intros Hall; rewrite Hall in Hm.
  - destruct Hm as [rs Hm]. rewrite Hm.
    exists (map enriched_to_json rs). split; [reflexivity|]. split; [|reflexivity].
    rewrite length_map. apply map_items_Forall2 in Hm.
    symmetry. eapply Forall2_length, Hm.
  - destruct Hm as [msg ->]. split; [reflexivity|]. exists msg. reflexivity.
Qed.

Lemma answer_is_all_or_nothing_witness :
  (exists elems,
     response_of (get_videos env_v1_v2 fresh) =
       Some {| status := 200; body := JArr elems |}
     /\ List.length elems = 1
     /\ console (world_of (get_videos env_v1_v2 fresh)) = [])
  /\ (response_of (get_videos env_bad_item fresh) = Some res_failed
      /\ exists msg,
           console (world_of (get_videos env_bad_item fresh)) =
             [("Error fetching videos:", TypeError msg)]).
Proof.
  split.
  - apply (proj1 (answer_is_all_or_nothing env_v1_v2 fresh
                    [mkDoc (Some "v1"); mkDoc (Some "v2")]
                    (answer [item_v1]) [item_v1] eq_refl eq_refl eq_refl)).
    reflexivity.
  - apply (proj2 (answer_is_all_or_nothing env_bad_item fresh
                    [mkDoc (Some "v1"); mkDoc (Some "v2")]
                    (answer [item_v1; item_no_high]) [item_v1; item_no_high]
                    eq_refl eq_refl eq_refl)).
    reflexivity.
Defined.

(** X2.  In a 200 response every record takes its five properties from
    the item at its position: [videoId] from [id], [title] and
    [channelTitle] from the [snippet], [thumbnail] from
    [snippet.thumbnails.high.url], [duration] from
    [contentDetails.duration]; a leaf the item does not have is a
    property the record does not have. *)
Theorem served_fields_mirror_item (env : Env) (w : World) (resp : Response) :
  response_of (get_videos env w) = Some resp ->
  status resp = 200%Z ->
  exists docs data items elems,
    read_catalog env = inr docs
    /\ youtube env (request_url env docs) = inr data
    /\ get_prop (Some data) "items" = inr (Some (JArr items))
    /\ body resp = JArr elems
    /\ Forall2 (fun item e =>
                  prop_of e "videoId" = path (Some item) ["id"]
                  /\ prop_of e "title" = path (Some item) ["snippet"; "title"]
                  /\ prop_of e "channelTitle" =
                       path (Some item) ["snippet"; "channelTitle"]
                  /\ prop_of e "thumbnail" =
                       path (Some item) ["snippet"; "thumbnails"; "high"; "url"]
                  /\ prop_of e "duration" =
                       path (Some item) ["contentDetails"; "duration"])
               items elems.
Proof.
  intros Hr Hs.
  destruct (ok_response_inv _ _ _ Hr Hs)
    as (docs & data & items & rs & Hc & Hy & Hi & Hm & -> & _).
  exists docs, data, items, (map enriched_to_json rs).
  repeat split; try assumption.
  apply map_items_Forall2 in Hm. clear Hr Hs Hi.
  induction Hm as [|item r items' rs' Hf _ IH]; cbn [map]; constructor;
    [|exact IH].
  pose proof (format_item_cases item) as Hcases.
  destruct (readable item).
  - destruct Hcases as (r' & Hf' & H1 & H2 & H3 & H4 & H5).
    rewrite Hf in Hf'. injection Hf' as <-.
    destruct (served_props r) as (P1 & P2 & P3 & P4 & P5).
    rewrite P1, P2, P3, P4, P5. repeat split; assumption.
  - destruct Hcases as [msg Hf']. rewrite Hf in Hf'. discriminate.
Qed.

Lemma served_fields_mirror_item_witness :
  exists docs data items elems,
    read_catalog env_no_title = inr docs
    /\ youtube env_no_title (request_url env_no_title docs) = inr data
    /\ get_prop (Some data) "items" = inr (Some (JArr items))
    /\ JArr [JObj [("channelTitle", JStr "Learnoverse");
                   ("thumbnail", JStr "u"); ("duration", JStr "PT2M")]]
       = JArr elems
    /\ Forall2 (fun item e =>
                  prop_of e "videoId" = path (Some item) ["id"]
                  /\ prop_of e "title" = path (Some item) ["snippet"; "title"]
                  /\ prop_of e "channelTitle" =
                       path (Some item) ["snippet"; "channelTitle"]
                  /\ prop_of e "thumbnail" =
                       path (Some item) ["snippet"; "thumbnails"; "high"; "url"]
                  /\ prop_of e "duration" =
                       path (Some item) ["contentDetails"; "duration"])
               items elems.
Proof.
  apply (served_fields_mirror_item env_no_title fresh
           {| status := 200;
              body := JArr [JObj [("channelTitle", JStr "Learnoverse");
                                  ("thumbnail", JStr "u");
                                  ("duration", JStr "PT2M")]] |});
    reflexivity.
Defined.

(** X3.  When the API's 2xx answer has no [items] array (an error
    document, a bare string, [null]), the request has gone out once, the
    response is the 500, and what the console gets is a [TypeError]. *)
Theorem answer_without_items_fails
    (env : Env) (w : World) (docs : list Doc) (data : json) :
  read_catalog env = inr docs ->
  youtube env (request_url env docs) = inr data ->
  is_array (prop_of data "items") = false ->
  response_of (get_videos env w) = Some res_failed
  /\ outbound (world_of (get_videos env w)) =
       (outbound w ++ [request_url env docs])%list
  /\ exists msg,
       console (world_of (get_videos env w)) =
         (console w ++ [("Error fetching videos:", TypeError msg)])%list.
Proof.
  intros Hc Hy Hno.
  rewrite (run_answered _ _ _ _ Hc Hy).
  unfold prop_of in Hno.
  destruct data as [| | | | |fields]; cbn in Hno |- *;
    try (repeat split; eexists; reflexivity).
  destruct (assoc "items" fields) as [[| | | | |?]|]; cbn in Hno |- *;
    try discriminate; repeat split; eexists; reflexivity.
Qed.

Lemma answer_without_items_fails_witness :
  response_of (get_videos env_no_items fresh) = Some res_failed
  /\ outbound (world_of (get_videos env_no_items fresh)) =
       (outbound fresh ++ [request_url env_no_items [mkDoc (Some "v1")]])%list
  /\ exists msg,
       console (world_of (get_videos env_no_items fresh)) =
         (console fresh ++ [("Error fetching videos:", TypeError msg)])%list.
Proof.
  apply (answer_without_items_fails env_no_items fresh [mkDoc (Some "v1")]
           (JObj [("error", JObj [("code", JNum 400)])]));
    reflexivity.
Defined.

(** ** What a request leaves behind *)

Lemma run_shape (env : Env) :
  exists resp urls logs,
    (forall w, get_videos env w =
               (inr resp, {| outbound := outbound w ++ urls;
                             console := console w ++ logs |}))
    /\ (urls = [] \/ exists docs, read_catalog env = inr docs
                                  /\ urls = [request_url env docs])
    /\ ((status resp = 200%Z /\ logs = [])
        \/ (resp = res_failed
            /\ exists e, logs = [("Error fetching videos:", e)])).
Proof.
  destruct (read_catalog env) as [e|docs] eqn:Hc.
  { exists res_failed, [], [("Error fetching videos:", e)].
    split; [|split]; [|left; reflexivity|right; eauto].
    intros w. rewrite (run_catalog_fails _ _ _ Hc), app_nil_r. reflexivity. }
  destruct (youtube env (request_url env docs)) as [e|data] eqn:Hy.
  { exists res_failed, [request_url env docs], [("Error fetching videos:", e)].
    split; [|split]; [|right; eauto|right; eauto].
    intros w. rewrite (run_upstream_fails _ _ _ _ Hc Hy). reflexivity. }
  destruct (bindE (get_prop (Some data) "items") array_map) as [e|rs] eqn:Hb.
  - exists res_failed, [request_url env docs], [("Error fetching videos:", e)].
    split; [|split]; [|right; eauto|right; eauto].
    intros w. rewrite (run_answered _ _ _ _ Hc Hy), Hb. reflexivity.
  - exists (res_json rs), [request_url env docs], [].
    split; [|split]; [|right; eauto|left; split; reflexivity].
    intros w. rewrite (run_answered _ _ _ _ Hc Hy), Hb, app_nil_r. reflexivity.
Qed.

(** X4.  When the handler answers, it answers 200 or 500, and it has
    written to the server's console exactly when it failed: with a 200
    the console is as it was, with a 500 it has the one more line
    [Error fetching videos:] with the error caught. *)
Theorem logs_exactly_when_failing (env : Env) (w : World) (resp : Response) :
  response_of (get_videos env w) = Some resp ->
  (status resp = 200%Z
   /\ console (world_of (get_videos env w)) = console w)
  \/ (status resp = 500%Z
      /\ exists e,
           console (world_of (get_videos env w)) =
             (console w ++ [("Error fetching videos:", e)])%list).
Proof.
  destruct (run_shape env) as (resp' & urls & logs & Hrun & _ & Hlogs).
  rewrite (Hrun w). cbn. intros [= <-].
  destruct Hlogs as [[Hs ->]|[-> [e ->]]].
  - left. split; [exact Hs|]. apply app_nil_r.
  - right. split; [reflexivity|]. exists e. reflexivity.
Qed.

Lemma logs_exactly_when_failing_witness :
  console (world_of (get_videos env_v1_v2 fresh)) = console fresh
  /\ exists e,
       console (world_of (get_videos env_upstream_fails fresh)) =
         (console fresh ++ [("Error fetching videos:", e)])%list.
Proof.
  split.
  - destruct (logs_exactly_when_failing env_v1_v2 fresh (res_json [record_v1])
                eq_refl) as [[_ Hsame]|[Hs _]].
    + exact Hsame.
    + discriminate Hs.
  - destruct (logs_exactly_when_failing env_upstream_fails fresh res_failed
                eq_refl) as [[Hs _]|[_ Hlog]].
    + discriminate Hs.
    + exact Hlog.
Defined.

(** X5.  A request is scoped: its response does not depend on what
    earlier requests sent or logged, and it only appends to both records,
    at most one outbound call, leaving every earlier entry in place. *)
Theorem request_is_scoped (env : Env) (w : World) :
  response_of (get_videos env w) = response_of (get_videos env fresh)
  /\ outbound (world_of (get_videos env w)) =
       (outbound w ++ outbound (world_of (get_videos env fresh)))%list
  /\ console (world_of (get_videos env w)) =
       (console w ++ console (world_of (get_videos env fresh)))%list
  /\ List.length (outbound (world_of (get_videos env fresh))) <= 1.
Proof.
  destruct (run_shape env) as (resp & urls & logs & Hrun & Hurls & _).
  rewrite (Hrun w), (Hrun fresh). cbn.
  repeat split.
  destruct Hurls as [->|(docs & _ & ->)]; cbn; lia.
Qed.

(** ** The process over time *)

Lemma request_without_db (key : option string)
    (api : string -> js_error + json) (p : Process) :
  proc_db p = None ->
  proc_db (on_request key api p) = None
  /\ outbound (world (on_request key api p)) = outbound (world p)
  /\ responses (on_request key api p) = (responses p ++ [res_failed])%list.
Proof.
  intros Hdb. unfold on_request. rewrite Hdb.
  rewrite (run_catalog_fails
             {| db := None; youtubeApiKey := key; youtube := api |} (world p)
             (TypeError "Cannot read properties of undefined (reading 'collection')")
             eq_refl).
  repeat split.
Qed.

Lemma serve_without_db (key : option string)
    (api : string -> js_error + json)
    (trace : list ServerEvent) (p0 p : Process) :
  proc_db p0 = None ->
  existsb is_connected trace = false ->
  serve key api p0 trace = Some p ->
  proc_db p = None
  /\ outbound (world p) = outbound (world p0)
  /\ responses p =
       (responses p0
        ++ repeat res_failed (List.length (filter is_request trace)))%list.
Proof.
  revert p0. induction trace as [|ev rest IH]; cbn [serve existsb filter];
    intros p0 Hdb Hno Hrun.
  - injection Hrun as <-. cbn. rewrite app_nil_r. auto.
  - apply orb_false_iff in Hno. destruct Hno as [Hev Hrest].
    destruct (can_happen p0 ev); [|discriminate].
    destruct ev as [client|error|]; cbn [is_connected] in Hev;
      [discriminate| |]; cbn [serve_event is_request] in *.
    + destruct (IH (on_connect_failed error p0) Hdb Hrest Hrun)
        as (H1 & H2 & H3). auto.
    + destruct (request_without_db key api p0 Hdb) as (Q1 & Q2 & Q3).
      destruct (IH _ Q1 Hrest Hrun) as (H1 & H2 & H3).
      split; [exact H1|]. split; [congruence|].
      rewrite H3, Q3, <- app_assoc. reflexivity.
Qed.

(** X6.  As long as the connection to the store has not come up (it is
    still pending, or it failed, which the process only logs), the
    process keeps answering: every request gets the 500 and none of them
    sends anything to the external API. *)
Theorem no_connection_no_service (key : option string)
    (api : string -> js_error + json) (trace : list ServerEvent) (p : Process) :
  serve key api boot trace = Some p ->
  existsb is_connected trace = false ->
  proc_db p = None
  /\ outbound (world p) = []
  /\ responses p = repeat res_failed (List.length (filter is_request trace)).
Proof.
  intros Hrun Hno.
  apply (serve_without_db key api trace boot p eq_refl Hno Hrun).
Qed.

Lemma no_connection_no_service_witness :
  exists p,
    serve (Some "KEY") (fun _ => inr (answer [item_v1])) boot
          [Request; ConnectFailed (MongoError "ECONNREFUSED"); Request] = Some p
    /\ proc_db p = None
    /\ outbound (world p) = []
    /\ responses p = [res_failed; res_failed].
Proof.
  eexists. split; [reflexivity|].
  apply (no_connection_no_service (Some "KEY") (fun _ => inr (answer [item_v1]))
           [Request; ConnectFailed (MongoError "ECONNREFUSED"); Request]);
    reflexivity.
Defined.

(** X7.  Once the connection is up nothing assigns [db] again, and
    nothing is kept from one request to the next: with a catalog the
    store can read, each of n requests sends its own call, for the same
    URL, and gets the same response as the first. *)
Theorem every_request_asks_again (key : option string)
    (api : string -> js_error + json) (database : Database)
    (docs : list Doc) (trace : list ServerEvent) (p0 p : Process) :
  proc_db p0 = Some database ->
  connecting p0 = false ->
  database "videos" = inr docs ->
  serve key api p0 trace = Some p ->
  proc_db p = Some database
  /\ outbound (world p) =
       (outbound (world p0)
        ++ repeat (youtubeApiUrl (videoIds docs) key) (List.length trace))%list
  /\ exists resp,
       response_of
         (get_videos {| db := Some database; youtubeApiKey := key; youtube := api |}
                     fresh) = Some resp
       /\ responses p = (responses p0 ++ repeat resp (List.length trace))%list.
Proof.
  intros Hdb Hconn Hq.
  set (env := {| db := Some database; youtubeApiKey := key; youtube := api |}).
  assert (Hc : read_catalog env = inr docs) by exact Hq.
  destruct (run_shape env) as (resp & urls & logs & Hrun & Hurls & _).
  assert (Hu : urls = [youtubeApiUrl (videoIds docs) key]).
  { pose proof (one_request env fresh docs Hc) as H1.
    unfold world_of in H1. rewrite (Hrun fresh) in H1. exact H1. }
  subst urls.
  revert p0 Hdb Hconn.
  induction trace as [|ev rest IH]; cbn [serve]; intros p0 Hdb Hconn Hserve.
  - injection Hserve as <-. cbn. rewrite !app_nil_r.
    split; [exact Hdb|]. split; [reflexivity|].
    exists resp. rewrite (Hrun fresh). split; reflexivity.
  - destruct ev as [client|error|]; cbn [can_happen] in Hserve;
      try (rewrite Hconn in Hserve; discriminate).
    cbn [serve_event] in Hserve.
    assert (Hstep : proc_db (on_request key api p0) = Some database
                    /\ connecting (on_request key api p0) = false
                    /\ outbound (world (on_request key api p0)) =
                         (outbound (world p0)
                          ++ [youtubeApiUrl (videoIds docs) key])%list
                    /\ responses (on_request key api p0) =
                         (responses p0 ++ [resp])%list).
    { unfold on_request. rewrite Hdb. fold env. rewrite (Hrun (world p0)).
      cbn. auto. }
    destruct Hstep as (S1 & S2 & S3 & S4).
    destruct (IH _ S1 S2 Hserve) as (H1 & H2 & resp' & H3 & H4).
    split; [exact H1|]. split.
    + rewrite H2, S3, <- app_assoc. reflexivity.
    + exists resp. rewrite (Hrun fresh). split; [reflexivity|].
      rewrite (Hrun fresh) in H3. cbn in H3. injection H3 as <-.
      rewrite H4, S4, <- app_assoc. reflexivity.
Qed.

Lemma every_request_asks_again_witness :
  exists p,
    serve (Some "KEY") (fun _ => inr (answer [item_v1]))
          (on_connected client_v1_v2 boot) [Request; Request] = Some p
    /\ outbound (world p) =
         (outbound (world (on_connected client_v1_v2 boot))
          ++ repeat (youtubeApiUrl
                       (videoIds [mkDoc (Some "v1"); mkDoc (Some "v2")])
                       (Some "KEY")) 2)%list
    /\ responses p = [res_json [record_v1]; res_json [record_v1]].
Proof.
  eexists. split; [reflexivity|].
  destruct (every_request_asks_again (Some "KEY")
              (fun _ => inr (answer [item_v1])) (client_v1_v2 "learnoverse")
              [mkDoc (Some "v1"); mkDoc (Some "v2")] [Request; Request]
              (on_connected client_v1_v2 boot) _ eq_refl eq_refl eq_refl eq_refl)
    as (_ & Hout & _).
  split; [exact Hout|reflexivity].
Defined.

End ServerMore.

(* ================================================================== *)
(** * Further properties of the client *)
(* ================================================================== *)

Module ClientMore.
Import Client ClientFacts.

Ltac cases_of_event e :=
  destruct e as [|r| |i|state|err| | |];
  cbn [handle enabled is_pull is_splash is_success is_settle is_tap] in *;
  try (unfold onPlayerStateChange; destruct (String.eqb state "ended"));
  try (unfold fetchVideos_settle; destruct (fetch_try r)).

(** ** A failed refresh *)

(** X8.  A refresh that fails over a list that is not empty changes
    nothing on the screen: once it has settled, the render is the one
    from before the pull, so the error string that was set is shown
    nowhere; what is left of the failure is a line on the console. *)
Theorem failed_refresh_is_silent (a : App) (r : FetchResult) (reason : string) :
  list_shown (hooks a) = true ->
  refreshing (hooks a) = false ->
  videos (hooks a) <> [] ->
  fetch_try r = inl reason ->
  let after := fetchVideos_settle r (onRefresh a) in
  render (hooks after) = render (hooks a)
  /\ error (hooks after) = Some fetch_error_message
  /\ effects after =
       (effects a ++ [Fetch (apiUrl (platform a)); ConsoleError reason])%list.
Proof.
  intros Hshown Href Hne Hr after.
  rewrite list_shown_spec in Hshown.
  apply andb_true_iff in Hshown as [Hshown _].
  apply andb_true_iff in Hshown as [Hsplash Hload].
  apply negb_true_iff in Hsplash, Hload.
  subst after. unfold fetchVideos_settle. rewrite Hr.
  destruct a as [[sp vs sel ld er info rf] eff n t os]. cbn in *. subst.
  split; [|split; [reflexivity|rewrite <- app_assoc; reflexivity]].
  unfold render, content. cbn.
  destruct vs as [|v vs]; [contradiction|]. cbn.
  rewrite andb_false_r. reflexivity.
Qed.

Lemma failed_refresh_is_silent_witness :
  let after := fetchVideos_settle (Rejected "Network request failed")
                                  (onRefresh app_browsing) in
  render (hooks after) = render (hooks app_browsing)
  /\ error (hooks after) = Some fetch_error_message
  /\ effects after =
       (effects app_browsing
        ++ [Fetch (apiUrl (platform app_browsing));
            ConsoleError "Network request failed"])%list.
Proof.
  apply (failed_refresh_is_silent app_browsing (Rejected "Network request failed")
           "Network request failed"); try reflexivity.
  discriminate.
Defined.

(** ** The error screen *)

Lemma fetch_urls_app (l1 l2 : list Effect) :
  fetch_urls (l1 ++ l2) = (fetch_urls l1 ++ fetch_urls l2)%list.
Proof.
  induction l1 as [|[url|line|heading message] l1 IH]; cbn; congruence.
Qed.

(** X9.  The error screen is a dead end.  When a fetch has failed with
    no list to fall back on and no other fetch is under way, the content
    area shows the error text, and the render has no refresh control in
    that branch: whatever happens next, no request is ever sent again and
    the list stays empty (the text says to pull down, but there is
    nothing to pull). *)
Theorem error_screen_is_dead_end (a final : App) (trace : list Event) :
  isLoading (hooks a) = false ->
  truthy (error (hooks a)) = true ->
  videos (hooks a) = [] ->
  in_flight a = 0 ->
  run a trace = Some final ->
  content (hooks final) = ErrorText (error (hooks a))
  /\ videos (hooks final) = []
  /\ fetch_urls (effects final) = fetch_urls (effects a)
  /\ enabled final PullRefresh = false
  /\ (forall r, enabled final (FetchSettled r) = false).
Proof.
  intros Hl He Hv Hn Hrun.
  set (P := fun b : App =>
              isLoading (hooks b) = false
              /\ error (hooks b) = error (hooks a)
              /\ videos (hooks b) = []
              /\ in_flight b = 0
              /\ fetch_urls (effects b) = fetch_urls (effects a)).
  assert (Hdead : forall b, P b -> list_shown (hooks b) = false).
  { intros b (B1 & B2 & B3 & _). rewrite list_shown_spec, B1, B2, B3, He.
    cbn. apply andb_false_r. }
  assert (HP : P final).
  { apply (run_invariant P) with (trace := trace) (a := a);
      [|exact Hrun|unfold P; auto].
    intros b e Hen Hb. pose proof (Hdead b Hb) as Hns.
    destruct Hb as (B1 & B2 & B3 & B4 & B5).
    cases_of_event e; unfold P; cbn;
      rewrite ?Hns, ?B4 in Hen; try discriminate;
      rewrite ?fetch_urls_app, ?app_nil_r; cbn; rewrite ?app_nil_r; auto. }
  pose proof (Hdead final HP) as Hns.
  destruct HP as (F1 & F2 & F3 & F4 & F5).
  split; [|split; [exact F3|split; [exact F5|split; [exact Hns|]]]].
  - unfold content. rewrite F1, F2, F3, He. reflexivity.
  - intros r. cbn. rewrite F4. reflexivity.
Qed.

Lemma error_screen_is_dead_end_witness :
  content (hooks (handle InfoPressed (splash_timeout app_failed))) =
    ErrorText (Some fetch_error_message)
  /\ videos (hooks (handle InfoPressed (splash_timeout app_failed))) = []
  /\ fetch_urls (effects (handle InfoPressed (splash_timeout app_failed))) =
       ["http://10.0.2.2:3000/videos"]
  /\ enabled (handle InfoPressed (splash_timeout app_failed)) PullRefresh = false
  /\ (forall r,
        enabled (handle InfoPressed (splash_timeout app_failed)) (FetchSettled r)
        = false).
Proof.
  apply (error_screen_is_dead_end app_failed
           (handle InfoPressed (splash_timeout app_failed))
           [SplashTimeout; InfoPressed]); reflexivity.
Defined.

(** ** Requests *)

Lemma run_fetches (trace : list Event) (a final : App) :
  run a trace = Some final ->
  platform final = platform a
  /\ fetch_urls (effects final) =
       (fetch_urls (effects a)
        ++ repeat (apiUrl (platform a)) (List.length (filter is_pull trace)))%list.
Proof.
  revert a. induction trace as [|e rest IH]; cbn [run filter]; intros a Hrun.
  - injection Hrun as <-. cbn. rewrite app_nil_r. auto.
  - destruct (enabled a e); [|discriminate].
    destruct (IH _ Hrun) as [Hp Hu]. rewrite Hp, Hu. clear IH Hrun Hp Hu.
    cases_of_event e; cbn; rewrite ?fetch_urls_app; cbn;
      rewrite ?app_nil_r, <- ?app_assoc; auto.
Qed.

(** X10.  The component sends one request when it mounts and one for
    every pull of the list, each to the one URL its platform selects, and
    no other: a fetch that fails is not tried again on its own, and no
    other handler fetches. *)
Theorem one_fetch_per_mount_and_pull
    (os : string) (trace : list Event) (a : App) :
  run (mount os) trace = Some a ->
  fetch_urls (effects a) =
    repeat (apiUrl os) (1 + List.length (filter is_pull trace)).
Proof.
  intros Hrun. destruct (run_fetches _ _ _ Hrun) as [_ Hu].
  rewrite Hu. reflexivity.
Qed.

Lemma one_fetch_per_mount_and_pull_witness :
  fetch_urls
    (effects (fetchVideos_settle (Rejected "Network request failed")
                                 (onRefresh app_browsing))) =
  repeat (apiUrl "android")
         (1 + List.length
                (filter is_pull
                   [FetchSettled (Responded true (inr [video_A; video_B]));
                    SplashTimeout; PullRefresh;
                    FetchSettled (Rejected "Network request failed")])).
Proof.
  apply (one_fetch_per_mount_and_pull "android"
           [FetchSettled (Responded true (inr [video_A; video_B]));
            SplashTimeout; PullRefresh;
            FetchSettled (Rejected "Network request failed")]
           (fetchVideos_settle (Rejected "Network request failed")
                               (onRefresh app_browsing))).
  vm_compute. reflexivity.
Defined.

(** ** The list and the error over a run *)

Lemma run_no_success (trace : list Event) (a final : App) :
  run a trace = Some final ->
  existsb is_success trace = false ->
  videos (hooks final) = videos (hooks a)
  /\ error (hooks final) =
       (if existsb is_settle trace then Some fetch_error_message
        else error (hooks a)).
Proof.
  revert a. induction trace as [|e rest IH]; cbn [run existsb]; intros a Hrun Hno.
  - injection Hrun as <-. auto.
  - apply orb_false_iff in Hno. destruct Hno as [He Hrest].
    destruct (enabled a e); [|discriminate].
    destruct (IH _ Hrun Hrest) as [Hv Herr]. rewrite Hv, Herr.
    clear IH Hrun Hv Herr.
    cases_of_event e; try discriminate; cbn;
      destruct (existsb is_settle rest); auto.
Qed.

(** X11.  What the list holds is the data of the latest fetch that
    succeeded, whatever has failed, been pulled, tapped or closed since
    (and nothing before any fetch has succeeded); and the error is set,
    to the one fixed message, exactly when a fetch has settled since
    then. *)
Theorem list_is_latest_successful_data
    (os : string) (trace : list Event) (a : App) :
  run (mount os) trace = Some a ->
  (existsb is_success trace = false ->
     videos (hooks a) = []
     /\ error (hooks a) =
          (if existsb is_settle trace then Some fetch_error_message else None))
  /\ (forall pre r data post,
        trace = (pre ++ FetchSettled r :: post)%list ->
        fetch_try r = inr data ->
        existsb is_success post = false ->
        videos (hooks a) = data
        /\ error (hooks a) =
             (if existsb is_settle post then Some fetch_error_message else None)).
Proof.
  intros Hrun. split.
  - intros Hno. apply (run_no_success _ _ _ Hrun Hno).
  - intros pre r data post -> Hr Hno.
    destruct (run_app _ _ _ _ Hrun) as (mid & _ & Hpost).
    cbn [run] in Hpost.
    destruct (enabled mid (FetchSettled r)); [|discriminate].
    destruct (run_no_success _ _ _ Hpost Hno) as [Hv He].
    rewrite Hv, He. cbn [handle]. unfold fetchVideos_settle. rewrite Hr.
    split; reflexivity.
Qed.

Lemma list_is_latest_successful_data_witness :
  let trace := [FetchSettled (Responded true (inr [video_A; video_B]));
                SplashTimeout; PullRefresh;
                FetchSettled (Rejected "Network request failed")] in
  let a := fetchVideos_settle (Rejected "Network request failed")
                              (onRefresh app_browsing) in
  videos (hooks a) = [video_A; video_B]
  /\ error (hooks a) = Some fetch_error_message.
Proof.
  intros trace a.
  assert (Hrun : run (mount "android") trace = Some a)
    by (vm_compute; reflexivity).
  apply (proj2 (list_is_latest_successful_data "android" trace a Hrun)
           [] (Responded true (inr [video_A; video_B])) [video_A; video_B]
           [SplashTimeout; PullRefresh;
            FetchSettled (Rejected "Network request failed")]);
    reflexivity.
Defined.

(** ** The splash *)

Lemma run_splash (trace : list Event) (a final : App) :
  splash_timer a = isSplashVisible (hooks a) ->
  run a trace = Some final ->
  isSplashVisible (hooks final) =
    isSplashVisible (hooks a) && negb (existsb is_splash trace)
  /\ List.length (filter is_splash trace) <=
       (if isSplashVisible (hooks a) then 1 else 0).
Proof.
  revert a. induction trace as [|e rest IH]; cbn [run existsb filter];
    intros a Hinv Hrun.
  - injection Hrun as <-. rewrite andb_true_r. split; [reflexivity|].
    destruct (isSplashVisible (hooks a)); cbn; lia.
  - destruct (enabled a e) eqn:Hen; [|discriminate].
    assert (Hstep : splash_timer (handle e a) = isSplashVisible (hooks (handle e a))
                    /\ isSplashVisible (hooks (handle e a)) =
                         isSplashVisible (hooks a) && negb (is_splash e)).
    { clear IH Hrun. cases_of_event e; cbn; rewrite ?andb_true_r, ?andb_false_r;
        auto. }
    destruct Hstep as [Hinv' Hsp].
    destruct (IH _ Hinv' Hrun) as [H1 H2]. rewrite Hsp in H1, H2.
    split; [rewrite H1, negb_orb, andb_assoc; reflexivity|].
    destruct e; cbn [is_splash negb length] in *;
      rewrite ?andb_true_r, ?andb_false_r in H2; try exact H2.
    cbn [enabled] in Hen. rewrite Hinv in Hen. rewrite Hen. cbn. lia.
Qed.

(** X12.  The splash is on the screen from the mount until its timer
    fires, which happens at most once, and never again after that; while
    it is up it is all there is, and the only things that can happen are
    the timer and a fetch settling behind it. *)
Theorem splash_covers_until_timer (os : string) (trace : list Event) (a : App) :
  run (mount os) trace = Some a ->
  isSplashVisible (hooks a) = negb (existsb is_splash trace)
  /\ List.length (filter is_splash trace) <= 1
  /\ (isSplashVisible (hooks a) = true ->
      render (hooks a) = Splash
      /\ forall e, enabled a e = true -> is_splash e || is_settle e = true).
Proof.
  intros Hrun.
  destruct (run_splash trace (mount os) a eq_refl Hrun) as [H1 H2].
  split; [exact H1|]. split; [exact H2|].
  intros Hvis. split.
  - unfold render. rewrite Hvis. reflexivity.
  - intros e Hen.
    destruct e; cbn [enabled is_splash is_settle orb] in *; try reflexivity;
      unfold list_shown, player_shown, render in Hen; rewrite Hvis in Hen;
      discriminate.
Qed.

Lemma splash_covers_until_timer_witness :
  isSplashVisible (hooks app_loaded) =
    negb (existsb is_splash
            [FetchSettled (Responded true (inr [video_A; video_B]))])
  /\ List.length
       (filter is_splash [FetchSettled (Responded true (inr [video_A; video_B]))])
     <= 1
  /\ (isSplashVisible (hooks app_loaded) = true ->
      render (hooks app_loaded) = Splash
      /\ forall e, enabled app_loaded e = true -> is_splash e || is_settle e = true).
Proof.
  apply (splash_covers_until_timer "android"
           [FetchSettled (Responded true (inr [video_A; video_B]))] app_loaded).
  reflexivity.
Defined.

(** ** Where the records come from *)

Lemma fetched_later (e : Event) (rest : list Event) (v : Video) :
  fetched rest v -> fetched (e :: rest) v.
Proof.
  intros (r & data & Hin & Hr & Hv). exists r, data.
  split; [right; exact Hin|auto].
Qed.

Lemma run_provenance (trace : list Event) (a final : App) (v : Video) :
  run a trace = Some final ->
  In v (videos (hooks final)) \/ selectedVideo (hooks final) = Some v ->
  In v (videos (hooks a)) \/ selectedVideo (hooks a) = Some v \/ fetched trace v.
Proof.
  revert a. induction trace as [|e rest IH]; cbn [run]; intros a Hrun Hv.
  - injection Hrun as <-. tauto.
  - destruct (enabled a e); [|discriminate].
    destruct (IH _ Hrun Hv) as [Hin|[Hsel|Hf]];
      [| |right; right; apply fetched_later, Hf]; clear IH Hrun Hv.
    + destruct e as [|r| |i|state|err| | |]; cbn [handle] in Hin;
        try (left; exact Hin).
      * unfold fetchVideos_settle in Hin.
        destruct (fetch_try r) as [reason|data] eqn:Hr; cbn in Hin;
          [left; exact Hin|].
        right; right. exists r, data. split; [left; reflexivity|auto].
      * unfold onPlayerStateChange in Hin.
        destruct (String.eqb state "ended"); left; exact Hin.
    + destruct e as [|r| |i|state|err| | |]; cbn [handle] in Hsel;
        try (right; left; exact Hsel); try discriminate.
      * unfold fetchVideos_settle in Hsel.
        destruct (fetch_try r); right; left; exact Hsel.
      * cbn in Hsel. left. apply nth_error_In with i. exact Hsel.
      * unfold onPlayerStateChange in Hsel.
        destruct (String.eqb state "ended"); [discriminate|].
        right; left; exact Hsel.
Qed.

(** X13.  Whatever the list shows and whatever the player plays came
    with a fetch that settled successfully earlier in the run: the
    component makes up no record, and the video in the player is always
    one it took from the list. *)
Theorem shown_records_were_fetched
    (os : string) (trace : list Event) (a : App) (v : Video) :
  run (mount os) trace = Some a ->
  In v (videos (hooks a)) \/ selectedVideo (hooks a) = Some v ->
  fetched trace v.
Proof.
  intros Hrun Hv.
  destruct (run_provenance _ _ _ v Hrun Hv) as [[]|[Hsel|Hf]];
    [discriminate Hsel|exact Hf].
Qed.

Lemma shown_records_were_fetched_witness :
  fetched [FetchSettled (Responded true (inr [video_A; video_B]));
           SplashTimeout; TapVideo 0] video_A.
Proof.
  apply (shown_records_were_fetched "android"
           [FetchSettled (Responded true (inr [video_A; video_B]));
            SplashTimeout; TapVideo 0] app_playing video_A).
  - vm_compute. reflexivity.
  - right. reflexivity.
Defined.

End ClientMore.
